(** * Hornet: message metadata and the UTXO ledger store

    A shallow embedding of three Go source files of the node:
    - package [hornet]: the [Hash] value type,
    - package [tangle]: [MessageMetadata], its setters and its fixed
      85-byte storage encoding,
    - package [utxo]: the ledger store built on a batched key-value store.

    Go values are modelled as follows.  A byte is a [Byte.byte]; unsigned
    and signed machine integers are [Z] with the wrap-around of each
    conversion written out; a byte slice whose capacity matters is a
    [slice] (backing array and length); a fixed [[32]byte] array is a
    [vec byte 32]; the key-value store is a [gmap] from keys to values.
    A function that may panic returns an [outcome]. *)

From Stdlib Require Import ZArith Lia List.
From Stdlib Require Import Strings.Byte.
From stdpp Require Import gmap list vector sorting.

Local Open Scope Z_scope.

(** ** Bytes *)

#[global] Instance byte_eq_decision : EqDecision byte := Byte.byte_eq_dec.

#[global] Program Instance byte_countable : Countable byte :=
  inj_countable Byte.to_N Byte.of_N _.
Next Obligation. intros b. apply Byte.of_to_N. Qed.

Definition Z_of_byte (b : byte) : Z := Z.of_N (Byte.to_N b).

(** The conversion [byte(v)] of an unsigned integer: the low eight bits. *)
Definition byte_of_Z (v : Z) : byte :=
  match Byte.of_N (Z.to_N (v mod 256)) with
  | Some b => b
  | None => x00
  end.

(** The conversions [uint32(v)], [uint16(v)], [uint64(v)] and [int32(v)]. *)
Definition uint16 (v : Z) : Z := v mod 2 ^ 16.
Definition uint32 (v : Z) : Z := v mod 2 ^ 32.
Definition uint64 (v : Z) : Z := v mod 2 ^ 64.
Definition int32 (v : Z) : Z := (v + 2 ^ 31) mod 2 ^ 32 - 2 ^ 31.

(** ** Outcomes of Go calls *)

(** The run-time panics the modelled code can raise. *)
Inductive panic : Type :=
  | UnknownHashLength (n : nat)
  | SliceBoundsOutOfRange
  | IndexOutOfRange.

(** The [error] values that travel through the modelled code. *)
Inductive error : Type :=
  | ErrKeyNotFound
  | ErrStoreIO (code : nat)
  | ErrInvalidLength (n : nat).

#[global] Instance panic_eq_decision : EqDecision panic.
Proof. solve_decision. Defined.
#[global] Instance error_eq_decision : EqDecision error.
Proof. solve_decision. Defined.

(** A Go call returns normally, with or without a non-nil [error], or it
    panics. *)
Inductive outcome (A : Type) : Type :=
  | Ret (a : A)
  | Fail (e : error)
  | Panics (p : panic).
Arguments Ret {A} a.
Arguments Fail {A} e.
Arguments Panics {A} p.

#[global] Instance outcome_ret : MRet outcome := @Ret.

#[global] Instance outcome_bind : MBind outcome := λ A B k o,
  match o with
  | Ret a => k a
  | Fail e => Fail e
  | Panics p => Panics p
  end.

(** ** Byte slices *)

(** A slice sees [len] elements of its backing array; [arr] is the array
    from the slice's first element up to its capacity. *)
Record slice : Type := Slice { arr : list byte; len : nat }.

Definition cap (s : slice) : nat := length (arr s).
Definition contents (s : slice) : list byte := take (len s) (arr s).

(** A slice that owns its array exactly: [len = cap]. *)
Definition slice_of (l : list byte) : slice := Slice l (length l).

(** [s[i]] panics unless [i < len(s)]. *)
Definition index (s : slice) (i : nat) : outcome byte :=
  match decide (i < len s)%nat, arr s !! i with
  | left _, Some b => Ret b
  | _, _ => Panics IndexOutOfRange
  end.

(** [s[lo:hi]] panics unless [lo <= hi <= cap(s)]; the bound is the
    capacity, not the length. *)
Definition reslice (s : slice) (lo hi : nat) : outcome slice :=
  if decide (lo ≤ hi ∧ hi ≤ cap s)%nat
  then Ret (Slice (drop lo (arr s)) (hi - lo))
  else Panics SliceBoundsOutOfRange.

(** ** Package encoding/binary, little endian *)

Module binary.

(** [binary.LittleEndian.PutUint16], [PutUint32], [PutUint64] on a fresh
    buffer of the exact size. *)
Definition PutUint16 (v : Z) : list byte :=
  [byte_of_Z v; byte_of_Z (Z.shiftr v 8)].

Definition PutUint32 (v : Z) : list byte :=
  [byte_of_Z v; byte_of_Z (Z.shiftr v 8);
   byte_of_Z (Z.shiftr v 16); byte_of_Z (Z.shiftr v 24)].

Definition PutUint64 (v : Z) : list byte :=
  PutUint32 v ++ PutUint32 (Z.shiftr v 32).

(** [binary.LittleEndian.Uint32(b)]: the bounds check [_ = b[3]] and
    then the four bytes or-ed together. *)
Definition Uint32 (b : slice) : outcome Z :=
  (b3 ← index b 3;
   b0 ← index b 0;
   b1 ← index b 1;
   b2 ← index b 2;
   Ret (Z.lor (Z.lor (Z.lor (Z_of_byte b0) (Z.shiftl (Z_of_byte b1) 8))
                     (Z.shiftl (Z_of_byte b2) 16))
              (Z.shiftl (Z_of_byte b3) 24))).

End binary.

(** ** Package encoding/hex *)

Module hex.

(** The table of digits, [hextable]. *)
Definition hextable : list byte :=
  ["0"; "1"; "2"; "3"; "4"; "5"; "6"; "7"; "8"; "9"; "a"; "b"; "c"; "d"; "e"; "f"]%byte.

Definition digit (v : Z) : byte := nth (Z.to_nat v) hextable "0"%byte.

(** [hex.EncodeToString(src)]: two digits for each byte, the high four
    bits first. *)
Definition EncodeToString (src : list byte) : list byte :=
  flat_map (λ b, [digit (Z.shiftr (Z_of_byte b) 4); digit (Z.land (Z_of_byte b) 15)]) src.

End hex.

(** ** Package hornet: the Hash type *)

Module hornet.

(** [iotago.MessageHashLength]. *)
Definition MessageHashLength : nat := 32.

(** [type Hash []byte]. *)
Definition Hash : Type := list byte.

(** The conversion [Hash(b)], as in [NullMessageID] and wherever a byte
    slice is passed as a [hornet.Hash]: the only way the source builds a
    Hash.  A conversion between slice types does not inspect the value. *)
Definition Hash_of (b : list byte) : outcome Hash := Ret b.

Definition NullMessageID : Hash := replicate MessageHashLength x00.

(** The builtin [copy(dst, src)]: the first [min(len(dst), len(src))]
    elements of [dst] are overwritten. *)
Definition copy (dst src : list byte) : list byte :=
  take (length dst) src ++ drop (length src) dst.

(** [Hash.ID]: the array form of a Hash of the right length, a panic
    otherwise. *)
Definition ID (h : Hash) : outcome (list byte) :=
  if decide (length h = MessageHashLength)
  then Ret (copy (replicate MessageHashLength x00) (take MessageHashLength h))
  else Panics (UnknownHashLength (length h)).

(** [Hash.Hex]: the hex string of a Hash of the right length, a panic
    otherwise. *)
Definition Hex (h : Hash) : outcome (list byte) :=
  if decide (length h = MessageHashLength)
  then Ret (hex.EncodeToString h)
  else Panics (UnknownHashLength (length h)).

(** [type Hashes []Hash]. *)
Definition Hashes : Type := list Hash.

(** The loop of [Hashes.Hex]: [results] is the slice it appends to. *)
Fixpoint Hashes_Hex_loop (h : Hashes) (results : list (list byte))
  : outcome (list (list byte)) :=
  match h with
  | [] => Ret results
  | hash :: rest =>
      str ← Hex hash;
      Hashes_Hex_loop rest (results ++ [str])
  end.

(** [Hashes.Hex]. *)
Definition Hashes_Hex (h : Hashes) : outcome (list (list byte)) :=
  Hashes_Hex_loop h [].

End hornet.

(** ** Package bitmask (hive.go) *)

Module bitmask.

(** [type BitMask byte]. *)
Definition BitMask : Type := byte.

(** The constant [1 << pos] at type [BitMask]. *)
Definition bit (pos : Z) : Z := Z.shiftl 1 pos mod 256.

Definition SetBit (m : BitMask) (pos : Z) : BitMask :=
  byte_of_Z (Z.lor (Z_of_byte m) (bit pos)).

Definition ClearBit (m : BitMask) (pos : Z) : BitMask :=
  byte_of_Z (Z.ldiff (Z_of_byte m) (bit pos)).

Definition HasBit (m : BitMask) (pos : Z) : bool :=
  0 <? Z.land (Z_of_byte m) (bit pos).

Definition ModifyBit (m : BitMask) (pos : Z) (state : bool) : BitMask :=
  if state then SetBit m pos else ClearBit m pos.

End bitmask.

(** ** Package tangle: message metadata *)

Module tangle.

Import hornet bitmask.

Definition MessageMetadataSolid : Z := 0.
Definition MessageMetadataConfirmed : Z := 1.
Definition MessageMetadataConflicting : Z := 2.

(** [modified] is the flag of the embedded [StorableObjectFlags] that
    [SetModified] sets; the embedded lock has no state of its own in a
    sequential run.  [solidificationTimestamp] is an [int32], the four
    indices are [milestone.Index], a [uint32]. *)
Record MessageMetadata : Type := mkMessageMetadata {
  modified : bool;
  messageID : Hash;
  metadata : BitMask;
  solidificationTimestamp : Z;
  confirmationIndex : Z;
  youngestConeRootIndex : Z;
  oldestConeRootIndex : Z;
  coneRootCalculationIndex : Z;
  parent1MessageID : Hash;
  parent2MessageID : Hash
}.

Definition NewMessageMetadata (messageID parent1MessageID parent2MessageID : Hash)
  : MessageMetadata :=
  {| modified := false;
     messageID := messageID;
     metadata := x00;
     solidificationTimestamp := 0;
     confirmationIndex := 0;
     youngestConeRootIndex := 0;
     oldestConeRootIndex := 0;
     coneRootCalculationIndex := 0;
     parent1MessageID := parent1MessageID;
     parent2MessageID := parent2MessageID |}.

(** Field updates. *)
Definition SetModified (b : bool) (m : MessageMetadata) : MessageMetadata :=
  mkMessageMetadata b (messageID m) (metadata m) (solidificationTimestamp m)
    (confirmationIndex m) (youngestConeRootIndex m) (oldestConeRootIndex m)
    (coneRootCalculationIndex m) (parent1MessageID m) (parent2MessageID m).

Definition with_metadata (v : BitMask) (m : MessageMetadata) : MessageMetadata :=
  mkMessageMetadata (modified m) (messageID m) v (solidificationTimestamp m)
    (confirmationIndex m) (youngestConeRootIndex m) (oldestConeRootIndex m)
    (coneRootCalculationIndex m) (parent1MessageID m) (parent2MessageID m).

Definition with_solidificationTimestamp (v : Z) (m : MessageMetadata) : MessageMetadata :=
  mkMessageMetadata (modified m) (messageID m) (metadata m) v
    (confirmationIndex m) (youngestConeRootIndex m) (oldestConeRootIndex m)
    (coneRootCalculationIndex m) (parent1MessageID m) (parent2MessageID m).

Definition with_confirmationIndex (v : Z) (m : MessageMetadata) : MessageMetadata :=
  mkMessageMetadata (modified m) (messageID m) (metadata m) (solidificationTimestamp m)
    v (youngestConeRootIndex m) (oldestConeRootIndex m)
    (coneRootCalculationIndex m) (parent1MessageID m) (parent2MessageID m).

Definition GetMessageID (m : MessageMetadata) : Hash := messageID m.
Definition GetParent1MessageID (m : MessageMetadata) : Hash := parent1MessageID m.
Definition GetParent2MessageID (m : MessageMetadata) : Hash := parent2MessageID m.
Definition GetSolidificationTimestamp (m : MessageMetadata) : Z :=
  solidificationTimestamp m.

Definition IsSolid (m : MessageMetadata) : bool :=
  HasBit (metadata m) MessageMetadataSolid.

(** [now] is the value of [time.Now().Unix()] at the call. *)
Definition SetSolid (now : Z) (solid : bool) (m : MessageMetadata) : MessageMetadata :=
  if negb (eqb solid (HasBit (metadata m) MessageMetadataSolid)) then
    let m1 := if solid
              then with_solidificationTimestamp (int32 now) m
              else with_solidificationTimestamp 0 m in
    let m2 := with_metadata (ModifyBit (metadata m1) MessageMetadataSolid solid) m1 in
    SetModified true m2
  else m.

Definition IsConfirmed (m : MessageMetadata) : bool :=
  HasBit (metadata m) MessageMetadataConfirmed.

Definition GetConfirmed (m : MessageMetadata) : bool * Z :=
  (HasBit (metadata m) MessageMetadataConfirmed, confirmationIndex m).

Definition SetConfirmed (confirmed : bool) (index : Z) (m : MessageMetadata)
  : MessageMetadata :=
  if negb (eqb confirmed (HasBit (metadata m) MessageMetadataConfirmed)) then
    let m1 := if confirmed
              then with_confirmationIndex index m
              else with_confirmationIndex 0 m in
    let m2 := with_metadata (ModifyBit (metadata m1) MessageMetadataConfirmed confirmed) m1 in
    SetModified true m2
  else m.

Definition IsConflicting (m : MessageMetadata) : bool :=
  HasBit (metadata m) MessageMetadataConflicting.

Definition SetConflicting (conflicting : bool) (m : MessageMetadata) : MessageMetadata :=
  if negb (eqb conflicting (HasBit (metadata m) MessageMetadataConflicting)) then
    SetModified true
      (with_metadata (ModifyBit (metadata m) MessageMetadataConflicting conflicting) m)
  else m.

Definition SetConeRootIndexes (ycri ocri ci : Z) (m : MessageMetadata) : MessageMetadata :=
  mkMessageMetadata true (messageID m) (metadata m) (solidificationTimestamp m)
    (confirmationIndex m) ycri ocri ci (parent1MessageID m) (parent2MessageID m).

Definition GetConeRootIndexes (m : MessageMetadata) : Z * Z * Z :=
  (youngestConeRootIndex m, oldestConeRootIndex m, coneRootCalculationIndex m).

Definition GetMetadata (m : MessageMetadata) : byte := metadata m.

Definition ObjectStorageKey (m : MessageMetadata) : list byte := messageID m.

(** The 21 fixed bytes, then the two parents appended. *)
Definition ObjectStorageValue (m : MessageMetadata) : list byte :=
  ([metadata m]
     ++ binary.PutUint32 (uint32 (solidificationTimestamp m))
     ++ binary.PutUint32 (uint32 (confirmationIndex m))
     ++ binary.PutUint32 (uint32 (youngestConeRootIndex m))
     ++ binary.PutUint32 (uint32 (oldestConeRootIndex m))
     ++ binary.PutUint32 (uint32 (coneRootCalculationIndex m)))
    ++ parent1MessageID m
    ++ parent2MessageID m.

(** [MetadataFactory] has no error path of its own: it returns the
    record with a nil error, or one of its slice expressions panics.
    The arguments of [NewMessageMetadata] are evaluated first, left to
    right. *)
Definition MetadataFactory (key data : slice) : outcome MessageMetadata :=
  (k ← reslice key 0 32;
   p1 ← reslice data 21 (21 + 32);
   p2 ← reslice data (21 + 32) (21 + 32 + 32);
   let m := NewMessageMetadata (contents k) (contents p1) (contents p2) in
   b0 ← index data 0;
   let m := with_metadata b0 m in
   d1 ← reslice data 1 5;
   ts ← binary.Uint32 d1;
   let m := with_solidificationTimestamp (int32 ts) m in
   d5 ← reslice data 5 9;
   ci ← binary.Uint32 d5;
   let m := with_confirmationIndex ci m in
   d9 ← reslice data 9 13;
   ycri ← binary.Uint32 d9;
   d13 ← reslice data 13 17;
   ocri ← binary.Uint32 d13;
   d17 ← reslice data 17 21;
   crci ← binary.Uint32 d17;
   Ret (mkMessageMetadata (modified m) (messageID m) (metadata m)
          (solidificationTimestamp m) (confirmationIndex m)
          ycri ocri crci (parent1MessageID m) (parent2MessageID m))).

End tangle.

(** ** Package kvstore (hive.go): the ordered key-value store *)

(** The store the ledger is built on, as section 6 of the specification
    takes it: point lookup, iteration over the keys with a prefix in
    ascending order that the consumer may end, and a batch with Set,
    Delete, Commit and Cancel, where Commit applies the staged operations
    at once and Cancel drops them.  Any call may report an error. *)

Module kvstore.

Definition Key : Type := list byte.
Definition Value : Type := list byte.

(** The store, already restricted to the realm of the ledger. *)
Abbreviation KVStore := (gmap (list byte) (list byte)).

(** One staged operation of a batch. *)
Inductive mutation : Type :=
  | SetOp (key : Key) (value : Value)
  | DeleteOp (key : Key).

(** [BatchedMutations]: the operations staged so far, oldest first. *)
Definition BatchedMutations : Type := list mutation.

(** Which calls of the store report an error.  Staging may depend on what
    is staged already; an iteration may break after a number of keys. *)
Record Faults : Type := mkFaults {
  set_err : BatchedMutations → Key → Value → option error;
  delete_err : BatchedMutations → Key → option error;
  commit_err : BatchedMutations → option error;
  get_err : Key → option error;
  iterate_err : list byte → option (nat * error)
}.

Definition no_faults : Faults :=
  mkFaults (λ _ _ _, None) (λ _ _, None) (λ _, None) (λ _, None) (λ _, None).

(** [store.Batched()]. *)
Definition Batched : BatchedMutations := [].

(** [mutations.Set(key, value)]: the batch after the call and the error. *)
Definition Set_ (F : Faults) (key : Key) (value : Value) (b : BatchedMutations)
  : BatchedMutations * option error :=
  match set_err F b key value with
  | Some err => (b, Some err)
  | None => (b ++ [SetOp key value], None)
  end.

(** [mutations.Delete(key)]. *)
Definition Delete (F : Faults) (key : Key) (b : BatchedMutations)
  : BatchedMutations * option error :=
  match delete_err F b key with
  | Some err => (b, Some err)
  | None => (b ++ [DeleteOp key], None)
  end.

Definition apply_mutation (s : KVStore) (op : mutation) : KVStore :=
  match op with
  | SetOp key value => <[key := value]> s
  | DeleteOp key => delete key s
  end.

(** [mutations.Commit()]: all staged operations, in order, or none. *)
Definition Commit (F : Faults) (s : KVStore) (b : BatchedMutations)
  : KVStore * option error :=
  match commit_err F b with
  | Some err => (s, Some err)
  | None => (foldl apply_mutation s b, None)
  end.

(** [mutations.Cancel()]: the staged operations are dropped. *)
Definition Cancel (s : KVStore) (b : BatchedMutations) : KVStore := s.

(** [store.Get(key)]. *)
Definition Get (F : Faults) (s : KVStore) (key : Key) : Value * option error :=
  match get_err F key with
  | Some err => ([], Some err)
  | None =>
      match s !! key with
      | Some value => (value, None)
      | None => ([], Some ErrKeyNotFound)
      end
  end.

(** Ascending order of keys: bytewise lexicographic. *)
Fixpoint key_leb (a b : Key) : bool :=
  match a, b with
  | [], _ => true
  | _ :: _, [] => false
  | x :: a', y :: b' =>
      if Z_of_byte x <? Z_of_byte y then true
      else if Z_of_byte y <? Z_of_byte x then false
      else key_leb a' b'
  end.

Definition key_le (a b : Key) : Prop := key_leb a b = true.

#[global] Instance key_le_dec : RelDecision key_le.
Proof. intros a b. unfold key_le. apply _. Defined.

(** The keys an iteration over [prefix] visits, in visiting order. *)
Definition keys_with_prefix (s : KVStore) (prefix : list byte) : list Key :=
  merge_sort key_le (filter (λ key, prefix `prefix_of` key) (map_to_list s).*1).

(** The loop of an iteration.  [break] counts the keys still delivered
    before the store fails; the consumer returns the state of its closure
    and whether to go on. *)
Fixpoint iterate {A : Type} (break : option (nat * error))
    (consumer : Key → A → A * bool) (keys : list Key) (acc : A)
  : A * option error :=
  match break with
  | Some (O, err) => (acc, Some err)
  | _ =>
      match keys with
      | [] => (acc, None)
      | key :: keys' =>
          let '(acc', continue) := consumer key acc in
          if continue
          then iterate (prod_map Nat.pred id <$> break) consumer keys' acc'
          else (acc', None)
      end
  end.

(** [store.IterateKeys(prefix, consumer)]. *)
Definition IterateKeys {A : Type} (F : Faults) (s : KVStore) (prefix : list byte)
    (consumer : Key → A → A * bool) (acc : A) : A * option error :=
  iterate (iterate_err F prefix) consumer (keys_with_prefix s prefix) acc.

End kvstore.

(** ** Package utxo: the ledger store *)

Module utxo.

Import kvstore.

(** Modelled from the spec: the four key prefixes, declared in a file of
    the package that is not at hand; section 4.3 names them [O], [U], [S]
    and [D]. *)
Definition UTXOStoreKeyPrefixOutput : byte := "O"%byte.
Definition UTXOStoreKeyPrefixUnspent : byte := "U"%byte.
Definition UTXOStoreKeyPrefixSpent : byte := "S"%byte.
Definition UTXOStoreKeyPrefixMilestoneDiffs : byte := "D"%byte.

(** Modelled from the spec: the Output record, declared in a file of the
    package that is not at hand.  Section 3: owning transaction ID, output
    index within that transaction (a [uint16]), receiving address and
    amount (a [uint64]); both hashes are [[32]byte] arrays. *)
Record Output : Type := mkOutput {
  TransactionID : vec byte 32;
  OutputIndex : Z;
  Address : vec byte 32;
  Amount : Z
}.

(** Modelled from the spec: the Spent record wraps an Output and names the
    transaction that consumed it. *)
Record Spent : Type := mkSpent {
  SpentOutput : Output;
  TargetTransactionID : vec byte 32
}.

(** Modelled from the spec: the key of an Output in the Output index
    without the prefix, transactionID(32) ++ outputIndex(2, little
    endian). *)
Definition Output_kvStorableKey (o : Output) : list byte :=
  vec_to_list (TransactionID o) ++ binary.PutUint16 (uint16 (OutputIndex o)).

(** Modelled from the spec: the key of an Output in the Unspent index
    without the prefix, address(32) ++ transactionID(32) ++
    outputIndex(2). *)
Definition Output_UTXOKey (o : Output) : list byte :=
  vec_to_list (Address o) ++ Output_kvStorableKey o.

(** Modelled from the spec: the encoded output, address and amount. *)
Definition Output_kvStorableValue (o : Output) : list byte :=
  vec_to_list (Address o) ++ binary.PutUint64 (uint64 (Amount o)).

(** Modelled from the spec: the key of a Spent in the Spent index without
    the prefix, address(32) ++ transactionID(32) ++ outputIndex(2).
    [storeSpentAndRemoveUnspent] puts the Unspent prefix before the same
    bytes to delete the marker that [markAsUnspent] wrote. *)
Definition Spent_kvStorableKey (sp : Spent) : list byte :=
  Output_UTXOKey (SpentOutput sp).

(** Modelled from the spec: the encoded spending-transaction reference. *)
Definition Spent_kvStorableValue (sp : Spent) : list byte :=
  vec_to_list (TargetTransactionID sp).

(** The first [n] elements of a list as an array. *)
Fixpoint take_vec (n : nat) (l : list byte) : option (vec byte n) :=
  match n with
  | O => Some [#]
  | S n' =>
      match l with
      | [] => None
      | x :: l' => vcons x <$> take_vec n' l'
      end
  end.

(** The number a byte string holds in little-endian order. *)
Definition LittleEndian_value (l : list byte) : Z :=
  foldr (λ b acc, Z.lor (Z_of_byte b) (Z.shiftl acc 8)) 0 l.

(** Modelled from the spec: decoding an Output from its key (without the
    prefix) and its value, the inverse of the two encodings above; wrong
    lengths are an error. *)
Definition Output_kvStorableLoad (key value : list byte) : outcome Output :=
  if decide (length key = 34%nat) then
    if decide (length value = 40%nat) then
      match take_vec 32 key, take_vec 32 value with
      | Some tx, Some addr =>
          Ret (mkOutput tx (LittleEndian_value (drop 32 key))
                 addr (LittleEndian_value (drop 32 value)))
      | _, _ => Fail (ErrInvalidLength (length key))
      end
    else Fail (ErrInvalidLength (length value))
  else Fail (ErrInvalidLength (length key)).

(** [ReadOutputForTransactionWithoutLocking]: the error of the lookup or
    of the decoder, or the output. *)
Definition ReadOutputForTransactionWithoutLocking (F : Faults) (s : KVStore)
    (transactionID : vec byte 32) (outputIndex : Z) : outcome Output :=
  let bytes := binary.PutUint16 (uint16 outputIndex) in
  let key := [UTXOStoreKeyPrefixOutput] ++ vec_to_list transactionID ++ bytes in
  match Get F s key with
  | (_, Some err) => Fail err
  | (value, None) => Output_kvStorableLoad (drop 1 key) value
  end.

(** The closure of [UnspentOutputsForAddress]: [outputs] is the variable
    it appends to.  Every key it is called with starts with the 33 bytes
    of the prefix, so that [key[33:]] is within bounds. *)
Definition unspentConsumer (F : Faults) (s : KVStore) (key : Key)
    (outputs : list Output) : list Output * bool :=
  let outputKey := [UTXOStoreKeyPrefixOutput] ++ drop 33 key in
  match Get F s outputKey with
  | (_, Some err) => (outputs, false)
  | (value, None) =>
      match Output_kvStorableLoad (drop 1 outputKey) value with
      | Ret output => (outputs ++ [output], true)
      | _ => (outputs, false)
      end
  end.

Definition UnspentOutputsForAddress (F : Faults) (s : KVStore) (address : vec byte 32)
  : list Output * option error :=
  let addressKeyPrefix := [UTXOStoreKeyPrefixUnspent] ++ vec_to_list address in
  IterateKeys F s addressKeyPrefix (unspentConsumer F s) [].

Definition storeOutput (F : Faults) (output : Output) (mutations : BatchedMutations)
  : BatchedMutations * option error :=
  let key := [UTXOStoreKeyPrefixOutput] ++ Output_kvStorableKey output in
  Set_ F key (Output_kvStorableValue output) mutations.

Definition markAsUnspent (F : Faults) (output : Output) (mutations : BatchedMutations)
  : BatchedMutations * option error :=
  let key := [UTXOStoreKeyPrefixUnspent] ++ Output_UTXOKey output in
  Set_ F key [] mutations.

(** The result of [Delete] is not looked at. *)
Definition storeSpentAndRemoveUnspent (F : Faults) (spent : Spent)
    (mutations : BatchedMutations) : BatchedMutations * option error :=
  let key := Spent_kvStorableKey spent in
  let unspentKey := [UTXOStoreKeyPrefixUnspent] ++ key in
  let spentKey := [UTXOStoreKeyPrefixSpent] ++ key in
  let mutations := (Delete F unspentKey mutations).1 in
  Set_ F spentKey (Spent_kvStorableValue spent) mutations.

Definition storeDiff (F : Faults) (msIndex : Z) (newOutputs : list Output)
    (newSpents : list Spent) (mutations : BatchedMutations)
  : BatchedMutations * option error :=
  let key := binary.PutUint32 (uint32 msIndex) in
  let outputCount := binary.PutUint32 (uint32 (Z.of_nat (length newOutputs))) in
  let value := outputCount in
  let value := value ++ concat (Output_kvStorableKey <$> newOutputs) in
  let spentCount := binary.PutUint32 (uint32 (Z.of_nat (length newSpents))) in
  let value := value ++ spentCount in
  let value := value ++ concat (Spent_kvStorableKey <$> newSpents) in
  Set_ F ([UTXOStoreKeyPrefixMilestoneDiffs] ++ key) value mutations.

(** The first loop of [ApplyConfirmation]; an error ends it. *)
Fixpoint stageOutputs (F : Faults) (newOutputs : list Output)
    (mutation : BatchedMutations) : BatchedMutations * option error :=
  match newOutputs with
  | [] => (mutation, None)
  | output :: rest =>
      match storeOutput F output mutation with
      | (mutation, Some err) => (mutation, Some err)
      | (mutation, None) =>
          match markAsUnspent F output mutation with
          | (mutation, Some err) => (mutation, Some err)
          | (mutation, None) => stageOutputs F rest mutation
          end
      end
  end.

(** The second loop of [ApplyConfirmation]. *)
Fixpoint stageSpents (F : Faults) (newSpents : list Spent)
    (mutation : BatchedMutations) : BatchedMutations * option error :=
  match newSpents with
  | [] => (mutation, None)
  | spent :: rest =>
      match storeSpentAndRemoveUnspent F spent mutation with
      | (mutation, Some err) => (mutation, Some err)
      | (mutation, None) => stageSpents F rest mutation
      end
  end.

(** [ApplyConfirmation]: the store after the call and the error it
    returns. *)
Definition ApplyConfirmation (F : Faults) (s : KVStore) (msIndex : Z)
    (newOutputs : list Output) (newSpents : list Spent) : KVStore * option error :=
  let mutation := Batched in
  match stageOutputs F newOutputs mutation with
  | (mutation, Some err) => (Cancel s mutation, Some err)
  | (mutation, None) =>
      match stageSpents F newSpents mutation with
      | (mutation, Some err) => (Cancel s mutation, Some err)
      | (mutation, None) =>
          match storeDiff F msIndex newOutputs newSpents mutation with
          | (mutation, Some err) => (Cancel s mutation, Some err)
          | (mutation, None) => Commit F s mutation
          end
      end
  end.

End utxo.

(** ** Notions used to state the properties *)

Module props.

Import hornet tangle kvstore utxo.

(** The values a record can hold in Go: hashes of 32 bytes, an [int32]
    timestamp and [uint32] indices. *)
Record in_range (m : MessageMetadata) : Prop := mk_in_range {
  range_messageID : length (messageID m) = 32%nat;
  range_parent1 : length (parent1MessageID m) = 32%nat;
  range_parent2 : length (parent2MessageID m) = 32%nat;
  range_timestamp : - 2 ^ 31 ≤ solidificationTimestamp m < 2 ^ 31;
  range_confirmationIndex : 0 ≤ confirmationIndex m < 2 ^ 32;
  range_ycri : 0 ≤ youngestConeRootIndex m < 2 ^ 32;
  range_ocri : 0 ≤ oldestConeRootIndex m < 2 ^ 32;
  range_crci : 0 ≤ coneRootCalculationIndex m < 2 ^ 32
}.

(** The little-endian word in the four bytes of [a] from offset [off]. *)
Definition word_at (a : list byte) (off : nat) : Z :=
  Z.lor (Z.lor (Z.lor (Z_of_byte (nth off a x00))
                      (Z.shiftl (Z_of_byte (nth (off + 1) a x00)) 8))
               (Z.shiftl (Z_of_byte (nth (off + 2) a x00)) 16))
        (Z.shiftl (Z_of_byte (nth (off + 3) a x00)) 24).

(** The record read at the fixed offsets of the arrays behind a key and
    a value, whatever follows the 32nd and the 85th byte. *)
Definition decoded (key data : slice) : MessageMetadata :=
  {| modified := false;
     messageID := take 32 (arr key);
     metadata := nth 0 (arr data) x00;
     solidificationTimestamp := int32 (word_at (arr data) 1);
     confirmationIndex := word_at (arr data) 5;
     youngestConeRootIndex := word_at (arr data) 9;
     oldestConeRootIndex := word_at (arr data) 13;
     coneRootCalculationIndex := word_at (arr data) 17;
     parent1MessageID := take 32 (drop 21 (arr data));
     parent2MessageID := take 32 (drop 53 (arr data)) |}.

(** The identity of an output as key bytes: transactionID, then the
    output index in two little-endian bytes. *)
Definition identityKey (tx : vec byte 32) (idx : Z) : list byte :=
  vec_to_list tx ++ binary.PutUint16 (uint16 idx).

Definition outputKey (tx : vec byte 32) (idx : Z) : Key :=
  [UTXOStoreKeyPrefixOutput] ++ identityKey tx idx.
Definition unspentKey (addr tx : vec byte 32) (idx : Z) : Key :=
  [UTXOStoreKeyPrefixUnspent] ++ vec_to_list addr ++ identityKey tx idx.
Definition spentKey (addr tx : vec byte 32) (idx : Z) : Key :=
  [UTXOStoreKeyPrefixSpent] ++ vec_to_list addr ++ identityKey tx idx.
Definition diffKey (msIndex : Z) : Key :=
  [UTXOStoreKeyPrefixMilestoneDiffs] ++ binary.PutUint32 (uint32 msIndex).

(** Presence of an identity in the three indices. *)
Definition hasOutput (s : KVStore) (tx : vec byte 32) (idx : Z) : Prop :=
  is_Some (s !! outputKey tx idx).
Definition inUnspent (s : KVStore) (tx : vec byte 32) (idx : Z) : Prop :=
  ∃ addr, is_Some (s !! unspentKey addr tx idx).
Definition inSpent (s : KVStore) (tx : vec byte 32) (idx : Z) : Prop :=
  ∃ addr, is_Some (s !! spentKey addr tx idx).

(** The stores a sequence of [ApplyConfirmation] calls reaches from the
    empty store, whatever the store reports at each call. *)
Inductive reachable : KVStore → Prop :=
  | reachable_empty : reachable ∅
  | reachable_apply (F : Faults) (s : KVStore) (msIndex : Z)
      (newOutputs : list Output) (newSpents : list Spent) :
      reachable s →
      reachable (ApplyConfirmation F s msIndex newOutputs newSpents).1.

(** What every reachable store satisfies: an Unspent marker has its
    Output record, and an Output record has an Unspent marker or a Spent
    record. *)
Definition ledger_inv (s : KVStore) : Prop :=
  (∀ addr tx idx, is_Some (s !! unspentKey addr tx idx) → hasOutput s tx idx)
  ∧ (∀ tx idx, hasOutput s tx idx → inUnspent s tx idx ∨ inSpent s tx idx).

(** The store stages every Delete it is asked for. *)
Definition deletes_staged (F : Faults) : Prop :=
  ∀ b key, delete_err F b key = None.

(** The operations one entry of each list stages; [deleted] tells
    whether the store accepted the Delete. *)
Definition output_ops (o : Output) : BatchedMutations :=
  [SetOp ([UTXOStoreKeyPrefixOutput] ++ Output_kvStorableKey o) (Output_kvStorableValue o);
   SetOp ([UTXOStoreKeyPrefixUnspent] ++ Output_UTXOKey o) []].

Definition spent_ops (deleted : bool) (sp : Spent) : BatchedMutations :=
  (if deleted then [DeleteOp ([UTXOStoreKeyPrefixUnspent] ++ Spent_kvStorableKey sp)] else [])
    ++ [SetOp ([UTXOStoreKeyPrefixSpent] ++ Spent_kvStorableKey sp) (Spent_kvStorableValue sp)].

(** The value of the diff record: two counted lists of keys. *)
Definition diff_value (newOutputs : list Output) (newSpents : list Spent) : Value :=
  binary.PutUint32 (uint32 (Z.of_nat (length newOutputs)))
    ++ concat ((λ o, identityKey (TransactionID o) (OutputIndex o)) <$> newOutputs)
    ++ binary.PutUint32 (uint32 (Z.of_nat (length newSpents)))
    ++ concat ((λ sp, vec_to_list (Address (SpentOutput sp))
                        ++ identityKey (TransactionID (SpentOutput sp))
                             (OutputIndex (SpentOutput sp))) <$> newSpents).

(** The diff value with the spent outputs listed by identity key alone. *)
Definition diff_value_by_identity (newOutputs : list Output) (newSpents : list Spent)
  : Value :=
  binary.PutUint32 (uint32 (Z.of_nat (length newOutputs)))
    ++ concat ((λ o, identityKey (TransactionID o) (OutputIndex o)) <$> newOutputs)
    ++ binary.PutUint32 (uint32 (Z.of_nat (length newSpents)))
    ++ concat ((λ sp, identityKey (TransactionID (SpentOutput sp))
                        (OutputIndex (SpentOutput sp))) <$> newSpents).

(** The whole batch of a call that stages everything. *)
Definition full_batch (deleted : list bool) (msIndex : Z)
    (newOutputs : list Output) (newSpents : list Spent) : BatchedMutations :=
  concat (output_ops <$> newOutputs)
    ++ concat (zip_with spent_ops deleted newSpents)
    ++ [SetOp (diffKey msIndex) (diff_value newOutputs newSpents)].



(** The Output an Unspent entry joins to, when it can be read. *)
Definition join (F : Faults) (s : KVStore) (key : Key) : option Output :=
  match Get F s ([UTXOStoreKeyPrefixOutput] ++ drop 33 key) with
  | (value, None) =>
      match Output_kvStorableLoad (drop 33 key) value with
      | Ret output => Some output
      | _ => None
      end
  | (_, Some _) => None
  end.

(** The outputs of the entries before the first one that does not join. *)
Fixpoint joined_run (F : Faults) (s : KVStore) (keys : list Key) : list Output :=
  match keys with
  | [] => []
  | key :: keys' =>
      match join F s key with
      | Some output => output :: joined_run F s keys'
      | None => []
      end
  end.

(** The consumer section 4.3 describes: a missing Output record is
    skipped, any other error of the store ends the iteration and is kept
    for the caller. *)
Definition skippingConsumer (F : Faults) (s : KVStore) (key : Key)
    (st : list Output * option error) : (list Output * option error) * bool :=
  let outputKey := [UTXOStoreKeyPrefixOutput] ++ drop 33 key in
  match Get F s outputKey with
  | (_, Some ErrKeyNotFound) => (st, true)
  | (_, Some err) => ((st.1, Some err), false)
  | (value, None) =>
      match Output_kvStorableLoad (drop 1 outputKey) value with
      | Ret output => ((st.1 ++ [output], st.2), true)
      | Fail err => ((st.1, Some err), false)
      | Panics _ => (st, false)
      end
  end.

Definition UnspentOutputsForAddress_described (F : Faults) (s : KVStore)
    (address : vec byte 32) : list Output * option error :=
  let addressKeyPrefix := [UTXOStoreKeyPrefixUnspent] ++ vec_to_list address in
  match IterateKeys F s addressKeyPrefix (skippingConsumer F s) ([], None) with
  | ((outputs, Some err), _) => (outputs, Some err)
  | ((outputs, None), err) => (outputs, err)
  end.

(** The value of a hex digit, and the bytes a hex string stands for. *)
Definition digit_value (c : byte) : Z :=
  let z := Z_of_byte c in
  if (48 <=? z) && (z <=? 57) then z - 48
  else if (97 <=? z) && (z <=? 102) then z - 87
  else 0.

Fixpoint unhex (str : list byte) : list byte :=
  match str with
  | hi :: lo :: rest => byte_of_Z (16 * digit_value hi + digit_value lo) :: unhex rest
  | _ => []
  end.

(** The keys a call stages an operation for. *)
Definition touched_keys (msIndex : Z) (newOutputs : list Output)
    (newSpents : list Spent) : list Key :=
  ((λ o, outputKey (TransactionID o) (OutputIndex o)) <$> newOutputs)
    ++ ((λ o, unspentKey (Address o) (TransactionID o) (OutputIndex o)) <$> newOutputs)
    ++ ((λ sp, unspentKey (Address (SpentOutput sp)) (TransactionID (SpentOutput sp))
                 (OutputIndex (SpentOutput sp))) <$> newSpents)
    ++ ((λ sp, spentKey (Address (SpentOutput sp)) (TransactionID (SpentOutput sp))
                 (OutputIndex (SpentOutput sp))) <$> newSpents)
    ++ [diffKey msIndex].

(** The values an Output can hold in Go: a [uint16] index and a [uint64]
    amount. *)
Definition output_in_range (o : Output) : Prop :=
  0 ≤ OutputIndex o < 2 ^ 16 ∧ 0 ≤ Amount o < 2 ^ 64.

(** The shape of the stores that calls build: a key under the Unspent
    prefix is the marker of some address and identity, and a record of the
    Output index has the 40 bytes of an encoded output. *)
Definition ledger_shape (s : KVStore) : Prop :=
  (∀ key, is_Some (s !! key) → head key = Some UTXOStoreKeyPrefixUnspent →
          ∃ addr tx idx, key = unspentKey addr tx idx)
  ∧ (∀ tx idx value, s !! outputKey tx idx = Some value → length value = 40%nat).

End props.

(** ** Sample values *)

Module samples.

Import hornet tangle kvstore utxo props.

Definition sample_metadata : MessageMetadata :=
  {| modified := true;
     messageID := replicate 32 x07;
     metadata := x05;
     solidificationTimestamp := -3;
     confirmationIndex := 4294967295;
     youngestConeRootIndex := 70000;
     oldestConeRootIndex := 258;
     coneRootCalculationIndex := 16777216;
     parent1MessageID := replicate 32 x11;
     parent2MessageID := replicate 32 x22 |}.

(** A key of 33 bytes, a key of 31 bytes and values of 85, 86 and 84
    bytes, each slice owning its array exactly. *)
Definition key33 : slice := slice_of (replicate 33 x07).
Definition key32 : slice := slice_of (replicate 32 x07).
Definition key31 : slice := slice_of (replicate 31 x07).
Definition value85 : slice := slice_of (replicate 85 x01).
Definition value86 : slice := slice_of (replicate 86 x01).
Definition value84 : slice := slice_of (replicate 84 x01).

Definition tx1 : vec byte 32 := vreplicate 32 x01.
Definition tx2 : vec byte 32 := vreplicate 32 x02.
Definition tx3 : vec byte 32 := vreplicate 32 x03.
Definition addrA : vec byte 32 := vreplicate 32 xaa.
Definition addrB : vec byte 32 := vreplicate 32 xbb.

Definition out1 : Output := mkOutput tx1 0 addrA 100.
Definition out3 : Output := mkOutput tx3 0 addrA 7.
Definition spent1 : Spent := mkSpent out1 tx2.

(** A spent that names the identity of [out1] under another address. *)
Definition out1B : Output := mkOutput tx1 0 addrB 100.
Definition spent1B : Spent := mkSpent out1B tx2.

(** Milestone 5 creates [out1]. *)
Definition store5 : KVStore := (ApplyConfirmation no_faults ∅ 5 [out1] []).1.
(** Milestone 6 spends it. *)
Definition store6 : KVStore := (ApplyConfirmation no_faults store5 6 [] [spent1]).1.
(** Milestone 7 is given [out1] as a new output once more. *)
Definition store7 : KVStore := (ApplyConfirmation no_faults store6 7 [out1] []).1.

(** On the empty store, milestone 6 is given a spent whose output was
    never stored. *)
Definition store_orphan : KVStore := (ApplyConfirmation no_faults ∅ 6 [] [spent1]).1.

(** [out3] is stored and unspent; the marker of [out1] is there without
    its Output record.  The marker of [out1] sorts first. *)
Definition store_gap : KVStore :=
  <[ unspentKey addrA tx1 0 := [] ]> (ApplyConfirmation no_faults ∅ 5 [out3] []).1.

(** One call creates [out3] and [out1] and spends [out1]. *)
Definition store_one_call : KVStore :=
  (ApplyConfirmation no_faults ∅ 5 [out3; out1] [spent1]).1.

(** Both outputs are stored and unspent. *)
Definition store_both : KVStore := (ApplyConfirmation no_faults ∅ 5 [out1; out3] []).1.

(** A store whose [Get] of the Output record of [out1] fails. *)
Definition get_fault : Faults :=
  mkFaults (λ _ _ _, None) (λ _ _, None) (λ _, None)
    (λ key, if decide (key = outputKey tx1 0) then Some (ErrStoreIO 5) else None)
    (λ _, None).

(** A store that refuses every Delete. *)
Definition delete_fault : Faults :=
  mkFaults (λ _ _ _, None) (λ _ _, Some (ErrStoreIO 7)) (λ _, None) (λ _, None)
    (λ _, None).

(** One call creates [out1] and is given [spent1B]. *)
Definition store_other_address : KVStore :=
  (ApplyConfirmation no_faults ∅ 5 [out1] [spent1B]).1.

(** One call creates [out1] and spends it, with a store that refuses the
    Delete. *)
Definition store_refused_delete : KVStore :=
  (ApplyConfirmation delete_fault ∅ 5 [out1] [spent1]).1.

(** A store that refuses every Set of a Spent record. *)
Definition set_fault : Faults :=
  mkFaults (λ _ key _, if decide (head key = Some UTXOStoreKeyPrefixSpent)
                       then Some (ErrStoreIO 9) else None)
    (λ _ _, None) (λ _, None) (λ _, None) (λ _, None).

End samples.

(** * Properties *)

Import hornet bitmask tangle kvstore utxo props samples.

(** ** Bytes and little-endian words *)

Lemma Z_of_byte_of_Z (v : Z) : Z_of_byte (byte_of_Z v) = v mod 256.
Proof.
  unfold Z_of_byte, byte_of_Z.
  assert (Hr : 0 ≤ v mod 256 < 256) by (apply Z.mod_pos_bound; lia).
  destruct (Byte.of_N (Z.to_N (v mod 256))) as [b|] eqn:E.
  - apply Byte.to_of_N in E. rewrite E. lia.
  - apply Byte.of_N_None_iff in E. lia.
Qed.

Lemma byte_of_Z_of_byte (b : byte) : byte_of_Z (Z_of_byte b) = b.
Proof. destruct b; reflexivity. Qed.

(** Bit [i] of an or of shifted bytes, for [i] in a known byte lane. *)
Ltac bits_cases :=
  rewrite ?Z.lor_spec;
  repeat match goal with
  | |- context [Z.testbit (Z.shiftl ?a ?k) ?i] =>
      rewrite (Z.shiftl_spec a k i) by lia
  end;
  change 256 with (2 ^ 8);
  repeat match goal with
  | |- context [Z.testbit ?a ?i] =>
      rewrite (Z.testbit_neg_r a i) by lia
  | |- context [Z.testbit (?a mod 2 ^ 8) ?i] =>
      first [ rewrite (Z.mod_pow2_bits_low a 8 i) by lia
            | rewrite (Z.mod_pow2_bits_high a 8 i) by lia ]
  | |- context [Z.testbit (Z.shiftr ?a ?k) ?i] =>
      rewrite (Z.shiftr_spec a k i) by lia
  end.

Lemma le32_value (v : Z) :
  0 ≤ v < 2 ^ 32 →
  Z.lor (Z.lor (Z.lor (v mod 256) (Z.shiftl (Z.shiftr v 8 mod 256) 8))
               (Z.shiftl (Z.shiftr v 16 mod 256) 16))
        (Z.shiftl (Z.shiftr v 24 mod 256) 24) = v.
Proof.
  intros Hv. apply Z.bits_inj'. intros n Hn.
  assert (Hhigh : 32 ≤ n → Z.testbit v n = false).
  { intros H. rewrite <- (Z.mod_small v (2 ^ 32)) by lia.
    apply Z.mod_pow2_bits_high. lia. }
  destruct (Z_lt_dec n 8); [|destruct (Z_lt_dec n 16); [|destruct (Z_lt_dec n 24);
    [|destruct (Z_lt_dec n 32)]]]; bits_cases; simpl;
    rewrite ?orb_false_r, ?orb_false_l; try (f_equal; lia).
  rewrite Hhigh by lia. reflexivity.
Qed.

Lemma int32_uint32 (v : Z) : - 2 ^ 31 ≤ v < 2 ^ 31 → int32 (uint32 v) = v.
Proof.
  intros Hv. unfold int32, uint32.
  change (2 ^ 32) with 4294967296 in *. change (2 ^ 31) with 2147483648 in *.
  Z.div_mod_to_equations. lia.
Qed.

Lemma uint32_range (v : Z) : 0 ≤ uint32 v < 2 ^ 32.
Proof. unfold uint32. apply Z.mod_pos_bound. lia. Qed.

Lemma uint32_small (v : Z) : 0 ≤ v < 2 ^ 32 → uint32 v = v.
Proof. intros. unfold uint32. by apply Z.mod_small. Qed.

(** ** Slices *)

Lemma bind_Ret {A B : Type} (a : A) (k : A → outcome B) : (Ret a ≫= k) = k a.
Proof. reflexivity. Qed.

Lemma reslice_ok (s : slice) (lo hi : nat) :
  (lo ≤ hi)%nat → (hi ≤ cap s)%nat →
  reslice s lo hi = Ret (Slice (drop lo (arr s)) (hi - lo)).
Proof. intros H1 H2. unfold reslice. rewrite decide_True; [done | lia]. Qed.

Lemma reslice_panics (s : slice) (lo hi : nat) :
  (cap s < hi)%nat → reslice s lo hi = Panics SliceBoundsOutOfRange.
Proof. intros H. unfold reslice. rewrite decide_False; [done | lia]. Qed.

Lemma index_ok (s : slice) (i : nat) (b : byte) :
  (i < len s)%nat → arr s !! i = Some b → index s i = Ret b.
Proof. intros H1 H2. unfold index. rewrite decide_True by done. by rewrite H2. Qed.

(** Four bytes written by [PutUint32] read back as the word. *)
Lemma Uint32_PutUint32 (v : Z) (rest : list byte) :
  0 ≤ v < 2 ^ 32 →
  binary.Uint32
    (Slice (byte_of_Z v :: byte_of_Z (Z.shiftr v 8) :: byte_of_Z (Z.shiftr v 16)
              :: byte_of_Z (Z.shiftr v 24) :: rest) 4) = Ret v.
Proof.
  intros Hv. unfold binary.Uint32, index.
  cbn -[Z_of_byte byte_of_Z Z.lor Z.shiftl Z.shiftr].
  rewrite !decide_True by lia. cbn -[Z_of_byte byte_of_Z Z.lor Z.shiftl Z.shiftr].
  rewrite !Z_of_byte_of_Z. f_equal. by apply le32_value.
Qed.

(** A slice whose visible bytes are [V] has them at the front of its array. *)
Lemma contents_split (d : slice) (V : list byte) :
  contents d = V → arr d = V ++ drop (len d) (arr d) ∧ (length V ≤ len d)%nat.
Proof.
  unfold contents. intros <-. split.
  - by rewrite take_drop.
  - rewrite length_take. lia.
Qed.

(** ** Message metadata: the storage encoding *)

Lemma MetadataFactory_of_encoding (m : MessageMetadata) (key data : slice) :
  in_range m →
  contents key = ObjectStorageKey m →
  contents data = ObjectStorageValue m →
  MetadataFactory key data = Ret (SetModified false m).
Proof.
  intros [Hid Hp1 Hp2 Hts Hci Hy Ho Hc] Hkey Hdata.
  destruct m as [md mid bm ts ci y o c p1 p2]; simpl in *.
  apply contents_split in Hkey as [Hka Hkl].
  apply contents_split in Hdata as [Hda Hdl].
  unfold ObjectStorageKey, ObjectStorageValue in *; simpl in *.
  destruct key as [ka kn], data as [da dn]; simpl in *.
  set (kr := drop kn ka) in *. set (dr := drop dn da) in *.
  clearbody kr dr. subst ka da.
  rewrite !length_app in Hdl. simpl in Hdl.
  unfold MetadataFactory.
  rewrite (reslice_ok _ 0 32); [| lia | unfold cap; simpl; rewrite length_app; lia].
  rewrite (reslice_ok _ 21 (21 + 32));
    [| lia | unfold cap; simpl; rewrite !length_app; lia].
  rewrite (reslice_ok _ (21 + 32) (21 + 32 + 32));
    [| lia | unfold cap; simpl; rewrite !length_app; lia].
  rewrite !bind_Ret.
  rewrite (index_ok _ 0 bm); [| simpl; lia | reflexivity].
  rewrite (reslice_ok _ 1 5); [| lia | unfold cap; simpl; rewrite !length_app; lia].
  rewrite (reslice_ok _ 5 9); [| lia | unfold cap; simpl; rewrite !length_app; lia].
  rewrite (reslice_ok _ 9 13); [| lia | unfold cap; simpl; rewrite !length_app; lia].
  rewrite (reslice_ok _ 13 17); [| lia | unfold cap; simpl; rewrite !length_app; lia].
  rewrite (reslice_ok _ 17 21); [| lia | unfold cap; simpl; rewrite !length_app; lia].
  cbn [arr len drop Nat.sub app].
  repeat (rewrite ?bind_Ret; rewrite Uint32_PutUint32 by apply uint32_range).
  rewrite ?bind_Ret.
  unfold SetModified, NewMessageMetadata, with_metadata, with_solidificationTimestamp,
    with_confirmationIndex, contents; simpl.
  rewrite int32_uint32 by done. rewrite !uint32_small by done.
  rewrite !drop_0, <- app_assoc.
  rewrite (take_app_length' mid) by done.
  rewrite (take_app_length' p1) by done.
  rewrite (drop_app_length' p1) by done.
  by rewrite (take_app_length' p2).
Qed.

(** C3.  For a record whose hashes are 32 bytes long and whose numbers fit
    their Go types, decoding its storage key and storage value with
    [MetadataFactory] succeeds and gives back the same messageID, metadata
    bitmask, solidificationTimestamp, confirmationIndex, the three
    cone-root indices and both parents.  The key and the value may sit in
    slices of any capacity. *)
Theorem MetadataFactory_roundtrip (m : MessageMetadata) (key data : slice) :
  in_range m →
  contents key = ObjectStorageKey m →
  contents data = ObjectStorageValue m →
  ∃ m', MetadataFactory key data = Ret m'
    ∧ messageID m' = messageID m
    ∧ metadata m' = metadata m
    ∧ solidificationTimestamp m' = solidificationTimestamp m
    ∧ confirmationIndex m' = confirmationIndex m
    ∧ youngestConeRootIndex m' = youngestConeRootIndex m
    ∧ oldestConeRootIndex m' = oldestConeRootIndex m
    ∧ coneRootCalculationIndex m' = coneRootCalculationIndex m
    ∧ parent1MessageID m' = parent1MessageID m
    ∧ parent2MessageID m' = parent2MessageID m.
Proof.
  intros Hr Hk Hd. exists (SetModified false m).
  split; [by apply MetadataFactory_of_encoding | by destruct m].
Qed.

Lemma MetadataFactory_roundtrip_witness :
  ∃ m', MetadataFactory (slice_of (ObjectStorageKey sample_metadata))
          (slice_of (ObjectStorageValue sample_metadata)) = Ret m'
    ∧ messageID m' = messageID sample_metadata
    ∧ metadata m' = metadata sample_metadata
    ∧ solidificationTimestamp m' = solidificationTimestamp sample_metadata
    ∧ confirmationIndex m' = confirmationIndex sample_metadata
    ∧ youngestConeRootIndex m' = youngestConeRootIndex sample_metadata
    ∧ oldestConeRootIndex m' = oldestConeRootIndex sample_metadata
    ∧ coneRootCalculationIndex m' = coneRootCalculationIndex sample_metadata
    ∧ parent1MessageID m' = parent1MessageID sample_metadata
    ∧ parent2MessageID m' = parent2MessageID sample_metadata.
Proof.
  apply (MetadataFactory_roundtrip sample_metadata).
  - split; simpl; first [reflexivity | lia].
  - reflexivity.
  - reflexivity.
Defined.

(** ** Message metadata: what [MetadataFactory] checks *)

Lemma nth_lookup_lt (a : list byte) (i : nat) :
  (i < length a)%nat → a !! i = Some (nth i a x00).
Proof.
  intros Hi. destruct (lookup_lt_is_Some_2 a i Hi) as [b Hb].
  by rewrite nth_lookup, Hb.
Qed.

Lemma index_drop (a : list byte) (off n i : nat) :
  (i < n)%nat → (off + i < length a)%nat →
  index (Slice (drop off a) n) i = Ret (nth (off + i) a x00).
Proof.
  intros Hi Hlen. apply index_ok; [done |]. simpl.
  rewrite lookup_drop. by apply nth_lookup_lt.
Qed.

Lemma Uint32_drop (a : list byte) (off : nat) :
  (off + 4 ≤ length a)%nat →
  binary.Uint32 (Slice (drop off a) 4) = Ret (word_at a off).
Proof.
  intros Hlen. unfold binary.Uint32, word_at.
  rewrite !index_drop by lia. rewrite !bind_Ret.
  by rewrite Nat.add_0_r.
Qed.

Lemma MetadataFactory_long_enough (key data : slice) :
  (32 ≤ cap key)%nat → (85 ≤ cap data)%nat → (1 ≤ len data)%nat →
  MetadataFactory key data = Ret (decoded key data).
Proof.
  intros Hk Hd Hl. unfold MetadataFactory.
  rewrite (reslice_ok key 0 32) by lia.
  rewrite (reslice_ok data 21 (21 + 32)) by lia.
  rewrite (reslice_ok data (21 + 32) (21 + 32 + 32)) by lia.
  rewrite !bind_Ret.
  rewrite (index_ok data 0 (nth 0 (arr data) x00));
    [| lia | apply nth_lookup_lt; unfold cap in Hd; lia].
  rewrite (reslice_ok data 1 5), (reslice_ok data 5 9), (reslice_ok data 9 13),
    (reslice_ok data 13 17), (reslice_ok data 17 21) by lia.
  rewrite !bind_Ret. cbn [Nat.sub].
  unfold cap in Hd.
  repeat (rewrite ?bind_Ret; rewrite Uint32_drop by lia).
  rewrite ?bind_Ret.
  reflexivity.
Qed.

Lemma MetadataFactory_too_short (key data : slice) :
  (cap key < 32 ∨ cap data < 85)%nat →
  MetadataFactory key data = Panics SliceBoundsOutOfRange.
Proof.
  intros Hshort. unfold MetadataFactory.
  destruct (decide (cap key < 32)%nat) as [Hk | Hk].
  { by rewrite (reslice_panics key 0 32). }
  rewrite (reslice_ok key 0 32) by lia. rewrite bind_Ret.
  destruct (decide (cap data < 21 + 32)%nat) as [Hd | Hd].
  { by rewrite (reslice_panics data 21 (21 + 32)). }
  rewrite (reslice_ok data 21 (21 + 32)) by lia. rewrite bind_Ret.
  rewrite (reslice_panics data (21 + 32) (21 + 32 + 32)) by lia.
  reflexivity.
Qed.

Lemma MetadataFactory_empty_view (key data : slice) :
  (32 ≤ cap key)%nat → (85 ≤ cap data)%nat → len data = 0%nat →
  MetadataFactory key data = Panics IndexOutOfRange.
Proof.
  intros Hk Hd Hl. unfold MetadataFactory.
  rewrite (reslice_ok key 0 32) by lia.
  rewrite (reslice_ok data 21 (21 + 32)) by lia.
  rewrite (reslice_ok data (21 + 32) (21 + 32 + 32)) by lia.
  rewrite !bind_Ret. unfold index at 1. rewrite decide_False by lia.
  reflexivity.
Qed.

(** C4, as stated, fails: a key of 33 bytes and a value of 86 bytes are
    decoded without any error, from their first 32 and 85 bytes. *)
Lemma MetadataFactory_accepts_wrong_lengths :
  len key33 ≠ 32%nat
  ∧ MetadataFactory key33 value85 = Ret (decoded key33 value85)
  ∧ len value86 ≠ 85%nat
  ∧ MetadataFactory key32 value86 = Ret (decoded key32 value86).
Proof. repeat split; first [discriminate | vm_compute; reflexivity]. Qed.

(** C4, amended.  [MetadataFactory] checks no length and has no error
    result.  With a key of capacity 32 or more and a non-empty value of
    capacity 85 or more it succeeds and reads the fixed offsets, whatever
    comes after them; with less capacity one of its slice expressions
    panics, so that no record is produced. *)
Theorem MetadataFactory_checks_no_length (key data : slice) :
  (∀ e, MetadataFactory key data ≠ Fail e)
  ∧ ((32 ≤ cap key)%nat → (85 ≤ cap data)%nat → (1 ≤ len data)%nat →
     MetadataFactory key data = Ret (decoded key data))
  ∧ ((cap key < 32 ∨ cap data < 85)%nat →
     MetadataFactory key data = Panics SliceBoundsOutOfRange).
Proof.
  split; [| split].
  - intros e.
    destruct (decide (cap key < 32 ∨ cap data < 85)%nat) as [Hs | Hs].
    { by rewrite MetadataFactory_too_short. }
    destruct (decide (len data = 0%nat)) as [Hl | Hl].
    { rewrite MetadataFactory_empty_view by lia. done. }
    rewrite MetadataFactory_long_enough by lia. done.
  - apply MetadataFactory_long_enough.
  - apply MetadataFactory_too_short.
Qed.

Lemma MetadataFactory_checks_no_length_witness :
  MetadataFactory key33 value86 = Ret (decoded key33 value86)
  ∧ MetadataFactory key31 value85 = Panics SliceBoundsOutOfRange
  ∧ MetadataFactory key32 value84 = Panics SliceBoundsOutOfRange.
Proof.
  split; [| split].
  - apply (proj1 (proj2 (MetadataFactory_checks_no_length key33 value86)));
      vm_compute; lia.
  - apply (proj2 (proj2 (MetadataFactory_checks_no_length key31 value85))).
    left. vm_compute. lia.
  - apply (proj2 (proj2 (MetadataFactory_checks_no_length key32 value84))).
    right. vm_compute. lia.
Defined.

(** ** The Hash type *)

Lemma copy_into_zeroes (h : Hash) :
  length h = MessageHashLength →
  copy (replicate MessageHashLength x00) (take MessageHashLength h) = h.
Proof.
  intros Hl. unfold copy.
  rewrite length_replicate, length_take, Hl, Nat.min_id.
  rewrite take_take, Nat.min_id, <- Hl, firstn_all.
  rewrite Hl, drop_ge by (rewrite length_replicate; lia).
  by rewrite app_nil_r.
Qed.

(** C5, as stated, fails: a Hash is built from a buffer of 31 bytes, and
    a record is created with it, without any failure. *)
Lemma Hash_of_31_bytes :
  length (replicate 31 x00) ≠ 32%nat
  ∧ Hash_of (replicate 31 x00) = Ret (replicate 31 x00)
  ∧ GetMessageID (NewMessageMetadata (replicate 31 x00) NullMessageID NullMessageID)
    = replicate 31 x00.
Proof. repeat split; first [discriminate | reflexivity]. Qed.

(** C5, amended.  Building a Hash from a buffer is a conversion that never
    fails, whatever the length.  The length is checked when the Hash is
    used: [ID] gives the same 32 bytes as an array when the length is 32
    and panics with the length otherwise, without truncating or padding. *)
Theorem Hash_length_checked_by_ID (b : list byte) :
  Hash_of b = Ret b
  ∧ ID b = if decide (length b = 32%nat) then Ret b
           else Panics (UnknownHashLength (length b)).
Proof.
  split; [reflexivity |]. unfold ID.
  change MessageHashLength with 32%nat.
  destruct (decide (length b = 32%nat)) as [Hl | Hl]; [| reflexivity].
  f_equal. by apply copy_into_zeroes.
Qed.

(** ** Message metadata: the flags *)

Lemma HasBit_SetBit_solid (b : BitMask) :
  HasBit (SetBit b MessageMetadataSolid) MessageMetadataSolid = true.
Proof. destruct b; reflexivity. Qed.

Lemma HasBit_SetBit_confirmed (b : BitMask) :
  HasBit (SetBit b MessageMetadataConfirmed) MessageMetadataConfirmed = true.
Proof. destruct b; reflexivity. Qed.

(** A flag that is already set makes the setter return at once. *)
Lemma SetSolid_unchanged (now : Z) (m : MessageMetadata) :
  IsSolid m = true → SetSolid now true m = m.
Proof. unfold IsSolid, SetSolid. by intros ->. Qed.

Lemma SetConfirmed_unchanged (index : Z) (m : MessageMetadata) :
  IsConfirmed m = true → SetConfirmed true index m = m.
Proof. unfold IsConfirmed, SetConfirmed. by intros ->. Qed.

(** C8.  On a freshly created record, [SetConfirmed(true, 42)] followed by
    [SetConfirmed(true, 99)]: the second call returns the record as it
    was, does not mark it modified even if the mark was cleared in
    between, and [GetConfirmed] answers [(true, 42)]. *)
Theorem SetConfirmed_second_call_noop (messageID parent1 parent2 : Hash) :
  let m1 := SetConfirmed true 42 (NewMessageMetadata messageID parent1 parent2) in
  SetConfirmed true 99 m1 = m1
  ∧ SetConfirmed true 99 (SetModified false m1) = SetModified false m1
  ∧ GetConfirmed (SetConfirmed true 99 m1) = (true, 42)
  ∧ modified m1 = true.
Proof. repeat split. Qed.

(** C9.  On a record that is not solid, the first [SetSolid(true)] sets
    the flag, the timestamp (the clock as an [int32]) and the modified
    mark; a second [SetSolid(true)], at any later clock value, returns
    the record as it was, and does not mark it modified even if the mark
    was cleared in between. *)
Theorem SetSolid_second_call_noop (m : MessageMetadata) (now1 now2 : Z) :
  IsSolid m = false →
  let m1 := SetSolid now1 true m in
  IsSolid m1 = true
  ∧ solidificationTimestamp m1 = int32 now1
  ∧ modified m1 = true
  ∧ SetSolid now2 true m1 = m1
  ∧ SetSolid now2 true (SetModified false m1) = SetModified false m1.
Proof.
  intros Hns m1.
  assert (Hm1 : m1 = SetModified true
            (with_metadata (SetBit (metadata m) MessageMetadataSolid)
               (with_solidificationTimestamp (int32 now1) m))).
  { unfold m1, SetSolid. unfold IsSolid in Hns. by rewrite Hns. }
  assert (Hs : IsSolid m1 = true).
  { rewrite Hm1. unfold IsSolid. simpl. apply HasBit_SetBit_solid. }
  split; [done |]. split; [by rewrite Hm1 |]. split; [by rewrite Hm1 |].
  split; by apply SetSolid_unchanged.
Qed.

Lemma SetSolid_second_call_noop_witness :
  let m1 := SetSolid 1600000000 true (NewMessageMetadata NullMessageID NullMessageID
                                        NullMessageID) in
  IsSolid m1 = true
  ∧ solidificationTimestamp m1 = int32 1600000000
  ∧ modified m1 = true
  ∧ SetSolid 1600000060 true m1 = m1
  ∧ SetSolid 1600000060 true (SetModified false m1) = SetModified false m1.
Proof.
  apply (SetSolid_second_call_noop
           (NewMessageMetadata NullMessageID NullMessageID NullMessageID)).
  reflexivity.
Defined.

(** ** The ledger store: what a call stages *)

Lemma Set__ok (F : Faults) (key : Key) (value : Value) (b b' : BatchedMutations) :
  Set_ F key value b = (b', None) → b' = b ++ [SetOp key value].
Proof. unfold Set_. destruct (set_err F b key value); congruence. Qed.

Lemma Delete_staged (F : Faults) (key : Key) (b : BatchedMutations) :
  ∃ deleted : bool,
    (Delete F key b).1 = b ++ (if deleted then [DeleteOp key] else [])
    ∧ (delete_err F b key = None → deleted = true).
Proof.
  unfold Delete. destruct (delete_err F b key) as [err|].
  - exists false. simpl. by rewrite app_nil_r.
  - by exists true.
Qed.

Lemma stageOutputs_ok (F : Faults) (newOutputs : list Output) (b b' : BatchedMutations) :
  stageOutputs F newOutputs b = (b', None) →
  b' = b ++ concat (output_ops <$> newOutputs).
Proof.
  revert b. induction newOutputs as [| o rest IH]; intros b H; simpl in *.
  - rewrite app_nil_r. congruence.
  - destruct (storeOutput F o b) as [b1 [e1|]] eqn:E1; [congruence |].
    destruct (markAsUnspent F o b1) as [b2 [e2|]] eqn:E2; [congruence |].
    apply Set__ok in E1, E2. apply IH in H. subst.
    by rewrite <- !app_assoc.
Qed.

Lemma stageSpents_ok (F : Faults) (newSpents : list Spent) (b b' : BatchedMutations) :
  stageSpents F newSpents b = (b', None) →
  ∃ deleted : list bool,
    length deleted = length newSpents
    ∧ b' = b ++ concat (zip_with spent_ops deleted newSpents)
    ∧ ((∀ b0 key, delete_err F b0 key = None) →
       deleted = replicate (length newSpents) true).
Proof.
  revert b. induction newSpents as [| sp rest IH]; intros b H; simpl in *.
  - exists []. rewrite app_nil_r. split; [done |]. split; [congruence | done].
  - destruct (storeSpentAndRemoveUnspent F sp b) as [b1 [e1|]] eqn:E1; [congruence |].
    unfold storeSpentAndRemoveUnspent in E1.
    destruct (Delete_staged F ([UTXOStoreKeyPrefixUnspent] ++ Spent_kvStorableKey sp) b)
      as (d & Hd & Hnf).
    rewrite Hd in E1. apply Set__ok in E1.
    apply IH in H as (ds & Hlen & Hb' & Hall).
    exists (d :: ds). split; [simpl; congruence |]. split.
    + subst. simpl. unfold spent_ops. by rewrite <- !app_assoc.
    + intros Hno. simpl. f_equal; [by apply Hnf | by apply Hall].
Qed.

Lemma storeDiff_ok (F : Faults) (msIndex : Z) (newOutputs : list Output)
    (newSpents : list Spent) (b b' : BatchedMutations) :
  storeDiff F msIndex newOutputs newSpents b = (b', None) →
  b' = b ++ [SetOp (diffKey msIndex) (diff_value newOutputs newSpents)].
Proof.
  unfold storeDiff. intros H. apply Set__ok in H. subst. f_equal. f_equal.
  unfold diff_value. by rewrite <- !app_assoc.
Qed.

Lemma pair_snd_None {A B : Type} (r : A * option B) : r.2 = None → r = (r.1, None).
Proof. destruct r as [a b]. simpl. by intros ->. Qed.

(** A call ends in one of two ways: an error and the store as it was, or
    no error and the whole batch applied. *)
Lemma ApplyConfirmation_cases (F : Faults) (s : KVStore) (msIndex : Z)
    (newOutputs : list Output) (newSpents : list Spent) :
  (∃ err, ApplyConfirmation F s msIndex newOutputs newSpents = (s, Some err))
  ∨ (∃ deleted : list bool,
       length deleted = length newSpents
       ∧ ((∀ b0 key, delete_err F b0 key = None) →
          deleted = replicate (length newSpents) true)
       ∧ ApplyConfirmation F s msIndex newOutputs newSpents
         = (foldl apply_mutation s (full_batch deleted msIndex newOutputs newSpents),
            None)).
Proof.
  unfold ApplyConfirmation, Cancel, Batched.
  destruct (stageOutputs F newOutputs []) as [b1 [e1|]] eqn:E1; [by left; eexists |].
  destruct (stageSpents F newSpents b1) as [b2 [e2|]] eqn:E2; [by left; eexists |].
  destruct (storeDiff F msIndex newOutputs newSpents b2) as [b3 [e3|]] eqn:E3;
    [by left; eexists |].
  apply stageOutputs_ok in E1. apply stageSpents_ok in E2 as (ds & Hlen & Hb2 & Hall).
  apply storeDiff_ok in E3. subst. simpl.
  unfold Commit. destruct (commit_err F _) as [e4|]; [by left; eexists |].
  right. exists ds. split; [done |]. split; [done |].
  unfold full_batch. by rewrite <- !app_assoc.
Qed.

Lemma ApplyConfirmation_success (F : Faults) (s s' : KVStore) (msIndex : Z)
    (newOutputs : list Output) (newSpents : list Spent) :
  ApplyConfirmation F s msIndex newOutputs newSpents = (s', None) →
  ∃ deleted : list bool,
    length deleted = length newSpents
    ∧ ((∀ b0 key, delete_err F b0 key = None) →
       deleted = replicate (length newSpents) true)
    ∧ s' = foldl apply_mutation s (full_batch deleted msIndex newOutputs newSpents).
Proof.
  intros H.
  destruct (ApplyConfirmation_cases F s msIndex newOutputs newSpents)
    as [[err He] | (ds & Hlen & Hall & Hs)].
  - congruence.
  - exists ds. split; [done |]. split; [done |]. congruence.
Qed.



(** A store that refuses the Set of a Spent record: the Sets staged for the
    new output are dropped with the batch, and the store is as before. *)
Example failed_set_cancels_batch :
  (ApplyConfirmation set_fault store5 6 [out3] [spent1]).2 = Some (ErrStoreIO 9)
  ∧ (ApplyConfirmation set_fault store5 6 [out3] [spent1]).1 = store5.
Proof.
  assert (He : (ApplyConfirmation set_fault store5 6 [out3] [spent1]).2
               = Some (ErrStoreIO 9)) by (vm_compute; reflexivity).
  split; [done |].
  destruct (ApplyConfirmation_cases set_fault store5 6 [out3] [spent1])
    as [[err H] | (ds & _ & _ & H)]; rewrite H in *; [done | discriminate].
Qed.










(** ** The ledger store: what a committed batch leaves *)

(** Keys of different indices differ in their first byte; within an index
    the fixed widths make the parts of a key unique. *)
Lemma unspentKey_inj (a a' t t' : vec byte 32) (i i' : Z) :
  unspentKey a t i = unspentKey a' t' i' →
  a = a' ∧ outputKey t i = outputKey t' i' ∧ spentKey a t i = spentKey a' t' i'.
Proof.
  unfold unspentKey, spentKey, outputKey. intros H.
  apply (inj (cons _)) in H.
  apply app_inj_1 in H as [Ha Hid]; [| by rewrite !length_vec_to_list].
  apply vec_to_list_inj2 in Ha. subst. by rewrite Hid.
Qed.

Lemma Output_key_eq (o : Output) :
  [UTXOStoreKeyPrefixOutput] ++ Output_kvStorableKey o
  = outputKey (TransactionID o) (OutputIndex o).
Proof. reflexivity. Qed.

Lemma Output_UTXOKey_eq (o : Output) :
  [UTXOStoreKeyPrefixUnspent] ++ Output_UTXOKey o
  = unspentKey (Address o) (TransactionID o) (OutputIndex o).
Proof. reflexivity. Qed.

Lemma Spent_unspentKey_eq (sp : Spent) :
  [UTXOStoreKeyPrefixUnspent] ++ Spent_kvStorableKey sp
  = unspentKey (Address (SpentOutput sp)) (TransactionID (SpentOutput sp))
      (OutputIndex (SpentOutput sp)).
Proof. reflexivity. Qed.

Lemma Spent_spentKey_eq (sp : Spent) :
  [UTXOStoreKeyPrefixSpent] ++ Spent_kvStorableKey sp
  = spentKey (Address (SpentOutput sp)) (TransactionID (SpentOutput sp))
      (OutputIndex (SpentOutput sp)).
Proof. reflexivity. Qed.

(** A property kept by every block of a batch is kept by the batch. *)
Lemma foldl_blocks_preserve (P : KVStore → Prop) (blocks : list BatchedMutations) :
  Forall (λ blk, ∀ s, P s → P (foldl apply_mutation s blk)) blocks →
  ∀ s, P s → P (foldl apply_mutation s (concat blocks)).
Proof.
  induction 1 as [| blk blocks Hblk _ IH]; intros s Hs; simpl; [done |].
  rewrite foldl_app. by apply IH, Hblk.
Qed.

(** A property set up by one block and kept by the others holds after
    the batch. *)
Lemma foldl_blocks_establish (P : KVStore → Prop) (blocks : list BatchedMutations)
    (blk : BatchedMutations) :
  blk ∈ blocks →
  (∀ s, P (foldl apply_mutation s blk)) →
  Forall (λ blk', ∀ s, P s → P (foldl apply_mutation s blk')) blocks →
  ∀ s, P (foldl apply_mutation s (concat blocks)).
Proof.
  intros Hin Hset Hkeep. induction Hkeep as [| blk' blocks Hblk' Hrest IH]; intros s.
  - by apply elem_of_nil in Hin.
  - simpl. rewrite foldl_app. apply elem_of_cons in Hin as [-> | Hin].
    + by apply foldl_blocks_preserve.
    + by apply IH.
Qed.

Lemma Forall_spent_blocks (Q : BatchedMutations → Prop) (deleted : list bool)
    (newSpents : list Spent) :
  (∀ d sp, sp ∈ newSpents → Q (spent_ops d sp)) →
  Forall Q (zip_with spent_ops deleted newSpents).
Proof.
  revert deleted. induction newSpents as [| sp rest IH]; intros ds HQ.
  - destruct ds; constructor.
  - destruct ds as [| d ds]; [constructor |]. simpl. constructor.
    + apply HQ. by left.
    + apply IH. intros d' sp' Hin. apply HQ. by right.
Qed.

Lemma elem_of_spent_blocks (newSpents : list Spent) (sp : Spent) :
  sp ∈ newSpents →
  spent_ops true sp ∈ zip_with spent_ops (replicate (length newSpents) true) newSpents.
Proof.
  induction 1 as [sp rest | sp sp' rest _ IH]; simpl; [by left | by right].
Qed.

(** The store a successful call leaves, phase by phase. *)
Lemma foldl_full_batch (s : KVStore) (deleted : list bool) (msIndex : Z)
    (newOutputs : list Output) (newSpents : list Spent) :
  foldl apply_mutation s (full_batch deleted msIndex newOutputs newSpents)
  = <[diffKey msIndex := diff_value newOutputs newSpents]>
      (foldl apply_mutation
         (foldl apply_mutation s (concat (output_ops <$> newOutputs)))
         (concat (zip_with spent_ops deleted newSpents))).
Proof. unfold full_batch. by rewrite !foldl_app. Qed.

(** C7, as stated, fails: for one spent output the diff record is not the
    two counts and the identity key; it holds 66 bytes for the spent. *)
Lemma diff_lists_spent_keys_with_address :
  (ApplyConfirmation no_faults ∅ 6 [] [spent1]).2 = None
  ∧ (ApplyConfirmation no_faults ∅ 6 [] [spent1]).1 !! diffKey 6
    ≠ Some (diff_value_by_identity [] [spent1])
  ∧ length (diff_value_by_identity [] [spent1]) = 42%nat
  ∧ length <$> (ApplyConfirmation no_faults ∅ 6 [] [spent1]).1 !! diffKey 6
    = Some 74%nat.
Proof.
  split; [vm_compute; reflexivity |].
  split; [vm_compute; discriminate |].
  split; vm_compute; reflexivity.
Qed.

(** C7, amended.  After a successful call the record under the prefix
    [D] and the milestone index in four little-endian bytes is: the
    number of new outputs in four little-endian bytes, the identity key
    (transactionID, output index in two bytes) of each new output in
    order, the number of spents, and for each spent in order its key in
    the Spent index: address, transactionID, output index. *)
Theorem diff_record_after_success (F : Faults) (s s' : KVStore) (msIndex : Z)
    (newOutputs : list Output) (newSpents : list Spent) :
  ApplyConfirmation F s msIndex newOutputs newSpents = (s', None) →
  s' !! diffKey msIndex = Some (diff_value newOutputs newSpents).
Proof.
  intros H. apply ApplyConfirmation_success in H as (ds & _ & _ & ->).
  rewrite foldl_full_batch. apply lookup_insert_eq.
Qed.

Lemma diff_record_after_success_witness :
  store6 !! diffKey 6 = Some (diff_value [] [spent1]).
Proof.
  apply (diff_record_after_success no_faults store5 store6 6 [] [spent1]).
  apply pair_snd_None. vm_compute. reflexivity.
Defined.

(** ** The ledger store: an output created and spent by one call *)

Ltac key_ne :=
  unfold outputKey, unspentKey, spentKey, diffKey, UTXOStoreKeyPrefixOutput,
    UTXOStoreKeyPrefixUnspent, UTXOStoreKeyPrefixSpent,
    UTXOStoreKeyPrefixMilestoneDiffs; simpl; discriminate.

Lemma is_Some_insert (s : KVStore) (k k' : Key) (v : Value) :
  is_Some (s !! k) → is_Some (<[k' := v]> s !! k).
Proof.
  intros H. destruct (decide (k' = k)) as [-> | Hne].
  - rewrite lookup_insert_eq. by eexists.
  - by rewrite lookup_insert_ne.
Qed.

Lemma is_Some_apply_other (s : KVStore) (k : Key) (op : mutation) :
  (∀ k', op ≠ DeleteOp k' ∨ k' ≠ k) →
  is_Some (s !! k) → is_Some (apply_mutation s op !! k).
Proof.
  intros Hop H. destruct op as [k' v | k']; simpl.
  - by apply is_Some_insert.
  - rewrite lookup_delete_ne; [done |]. by destruct (Hop k').
Qed.

(** A record that is present stays present through a block that deletes
    other keys only. *)
Lemma is_Some_foldl (s : KVStore) (k : Key) (blk : BatchedMutations) :
  Forall (λ op, ∀ k', op ≠ DeleteOp k' ∨ k' ≠ k) blk →
  is_Some (s !! k) → is_Some (foldl apply_mutation s blk !! k).
Proof.
  intros Hblk. revert s. induction Hblk as [| op blk Hop _ IH]; intros s H; simpl.
  - done.
  - by apply IH, is_Some_apply_other.
Qed.

Lemma output_ops_no_delete (o : Output) (k : Key) :
  Forall (λ op, ∀ k', op ≠ DeleteOp k' ∨ k' ≠ k) (output_ops o).
Proof.
  unfold output_ops.
  constructor; [intros k'; by left |]. constructor; [intros k'; by left |].
  constructor.
Qed.

Lemma spent_ops_delete_unspent (d : bool) (sp : Spent) (k : Key) :
  (∀ addr tx idx, k ≠ unspentKey addr tx idx) →
  Forall (λ op, ∀ k', op ≠ DeleteOp k' ∨ k' ≠ k) (spent_ops d sp).
Proof.
  intros Hk. unfold spent_ops. destruct d; simpl.
  - constructor; [| constructor; [intros k'; by left | constructor]].
    intros k'. destruct (decide (k' = k)) as [-> | Hne]; [| by right].
    left. intros [= E].
    apply (Hk (Address (SpentOutput sp)) (TransactionID (SpentOutput sp))
             (OutputIndex (SpentOutput sp))).
    by rewrite <- E.
  - constructor; [intros k'; by left | constructor].
Qed.

(** C10, as stated, fails.  The keys of the Unspent and of the Spent index
    begin with the address.  One successful call on the empty store is
    given [out1] as a new output and a spent that names the transactionID
    and output index of [out1] under another address: afterwards the
    Output record exists and the Spent record is present, and the Unspent
    marker that the call wrote for [out1] is still there, so that the
    identity is unspent and spent at once. *)
Lemma spent_of_other_address_keeps_marker :
  out1 ∈ [out1] ∧ spent1B ∈ [spent1B]
  ∧ TransactionID (SpentOutput spent1B) = TransactionID out1
  ∧ OutputIndex (SpentOutput spent1B) = OutputIndex out1
  ∧ ApplyConfirmation no_faults ∅ 5 [out1] [spent1B] = (store_other_address, None)
  ∧ hasOutput store_other_address tx1 0
  ∧ is_Some (store_other_address !! spentKey addrB tx1 0)
  ∧ store_other_address !! unspentKey addrA tx1 0 = Some []
  ∧ inUnspent store_other_address tx1 0
  ∧ inSpent store_other_address tx1 0.
Proof.
  split; [apply list_elem_of_In; simpl; tauto |].
  split; [apply list_elem_of_In; simpl; tauto |].
  split; [reflexivity |]. split; [reflexivity |].
  split; [apply pair_snd_None; vm_compute; reflexivity |].
  split; [vm_compute; by eexists |].
  split; [vm_compute; by eexists |].
  split; [vm_compute; reflexivity |].
  split; [exists addrA | exists addrB]; vm_compute; by eexists.
Qed.

(** The result of [Delete] is not looked at: with a store that refuses
    the Delete, a call that creates [out1] and spends it succeeds, and
    the marker of [out1] stays next to its Spent record. *)
Example refused_delete_keeps_marker :
  ApplyConfirmation delete_fault ∅ 5 [out1] [spent1] = (store_refused_delete, None)
  ∧ store_refused_delete !! unspentKey addrA tx1 0 = Some []
  ∧ is_Some (store_refused_delete !! spentKey addrA tx1 0).
Proof.
  split; [apply pair_snd_None; vm_compute; reflexivity |].
  split; [vm_compute; reflexivity |].
  vm_compute; by eexists.
Qed.

(** C10, amended.  When a new output and a spent of the same call have
    the same transactionID and output index, and the call succeeds with
    its Deletes staged, then afterwards the Output record exists, the
    Unspent marker under the spent's address is absent and the Spent
    record under the spent's address is present.  When the two entries
    also agree on the address, as they do for one output, the absent
    marker is the one the call wrote for the new output. *)
Theorem created_and_spent_in_one_call (F : Faults) (s s' : KVStore) (msIndex : Z)
    (newOutputs : list Output) (newSpents : list Spent) (o : Output) (sp : Spent) :
  o ∈ newOutputs → sp ∈ newSpents →
  TransactionID (SpentOutput sp) = TransactionID o →
  OutputIndex (SpentOutput sp) = OutputIndex o →
  deletes_staged F →
  ApplyConfirmation F s msIndex newOutputs newSpents = (s', None) →
  hasOutput s' (TransactionID o) (OutputIndex o)
  ∧ s' !! unspentKey (Address (SpentOutput sp)) (TransactionID o) (OutputIndex o) = None
  ∧ is_Some (s' !! spentKey (Address (SpentOutput sp)) (TransactionID o) (OutputIndex o))
  ∧ (Address (SpentOutput sp) = Address o →
     s' !! ([UTXOStoreKeyPrefixUnspent] ++ Output_UTXOKey o) = None).
Proof.
  intros Ho Hsp Htx Hidx Hdel H.
  apply ApplyConfirmation_success in H as (ds & _ & Hds & ->).
  specialize (Hds Hdel). subst ds. rewrite foldl_full_batch.
  set (s1 := foldl apply_mutation s (concat (output_ops <$> newOutputs))).
  set (blocks := zip_with spent_ops (replicate (length newSpents) true) newSpents).
  assert (Hout : hasOutput s1 (TransactionID o) (OutputIndex o)).
  { unfold s1. apply (foldl_blocks_establish
      (λ s0, hasOutput s0 (TransactionID o) (OutputIndex o)) _ (output_ops o)).
    - apply list_elem_of_fmap. by exists o.
    - intros s0. unfold output_ops, hasOutput. cbn [foldl apply_mutation].
      rewrite Output_key_eq.
      apply is_Some_insert. rewrite lookup_insert_eq. by eexists.
    - apply Forall_fmap, Forall_forall. intros o' _ s0.
      apply is_Some_foldl, output_ops_no_delete. }
  assert (Hunspent :
      foldl apply_mutation s1 (concat blocks)
        !! unspentKey (Address (SpentOutput sp)) (TransactionID o) (OutputIndex o)
      = None).
  { apply (foldl_blocks_establish
      (λ s0, s0 !! unspentKey (Address (SpentOutput sp)) (TransactionID o)
                     (OutputIndex o) = None) blocks (spent_ops true sp)).
    - by apply elem_of_spent_blocks.
    - intros s0. unfold spent_ops. rewrite foldl_app. cbn [foldl apply_mutation].
      rewrite Spent_unspentKey_eq, Spent_spentKey_eq, Htx, Hidx.
      rewrite lookup_insert_ne by key_ne. apply lookup_delete_eq.
    - apply Forall_spent_blocks. intros d sp' _ s0 Hnone.
      unfold spent_ops. rewrite foldl_app. cbn [foldl apply_mutation].
      rewrite Spent_spentKey_eq. rewrite lookup_insert_ne by key_ne.
      destruct d; cbn [foldl apply_mutation]; [| done].
      rewrite lookup_delete. by case_decide. }
  assert (Hspent :
      is_Some (foldl apply_mutation s1 (concat blocks)
        !! spentKey (Address (SpentOutput sp)) (TransactionID o) (OutputIndex o))).
  { apply (foldl_blocks_establish
      (λ s0, is_Some (s0 !! spentKey (Address (SpentOutput sp)) (TransactionID o)
                     (OutputIndex o))) blocks (spent_ops true sp)).
    - by apply elem_of_spent_blocks.
    - intros s0. unfold spent_ops. rewrite foldl_app. cbn [foldl apply_mutation].
      rewrite Spent_spentKey_eq, Htx, Hidx.
      rewrite lookup_insert_eq. by eexists.
    - apply Forall_spent_blocks. intros d sp' _ s0.
      apply is_Some_foldl, spent_ops_delete_unspent. intros; key_ne. }
  split; [| split; [| split]].
  - apply is_Some_insert. unfold blocks.
    apply (foldl_blocks_preserve
      (λ s0, hasOutput s0 (TransactionID o) (OutputIndex o))); [| done].
    apply Forall_spent_blocks. intros d sp' _ s0.
    apply is_Some_foldl, spent_ops_delete_unspent. intros; key_ne.
  - rewrite lookup_insert_ne by key_ne. done.
  - by apply is_Some_insert.
  - intros Haddr. rewrite Output_UTXOKey_eq, <- Haddr.
    rewrite lookup_insert_ne by key_ne. done.
Qed.

Lemma created_and_spent_in_one_call_witness :
  hasOutput store_one_call tx1 0
  ∧ store_one_call !! unspentKey addrA tx1 0 = None
  ∧ is_Some (store_one_call !! spentKey addrA tx1 0)
  ∧ (addrA = addrA →
     store_one_call !! ([UTXOStoreKeyPrefixUnspent] ++ Output_UTXOKey out1) = None).
Proof.
  refine (created_and_spent_in_one_call no_faults ∅ store_one_call 5 [out3; out1]
            [spent1] out1 spent1 _ _ eq_refl eq_refl _ _).
  - apply list_elem_of_In. simpl. tauto.
  - apply list_elem_of_In. simpl. tauto.
  - intros b key. reflexivity.
  - apply pair_snd_None. vm_compute. reflexivity.
Defined.

(** ** The ledger store: what holds of every reachable store *)

Lemma outputKey_same_identity (t t' : vec byte 32) (i i' : Z) (a : vec byte 32) :
  outputKey t i = outputKey t' i' →
  unspentKey a t i = unspentKey a t' i' ∧ spentKey a t i = spentKey a t' i'.
Proof.
  unfold outputKey, unspentKey, spentKey. intros H.
  apply (inj (cons _)) in H. by rewrite H.
Qed.

Lemma ledger_inv_empty : ledger_inv ∅.
Proof.
  split.
  - intros a t i [v Hv]. by rewrite lookup_empty in Hv.
  - intros t i [v Hv]. by rewrite lookup_empty in Hv.
Qed.

(** A Set under a key of the Spent or the diff index. *)
Lemma ledger_inv_insert_other (s : KVStore) (k : Key) (v : Value) :
  (∀ a t i, k ≠ unspentKey a t i) → (∀ t i, k ≠ outputKey t i) →
  ledger_inv s → ledger_inv (<[k := v]> s).
Proof.
  intros HnU HnO [HU HO]. split.
  - intros a t i. rewrite lookup_insert_ne by apply HnU.
    intros H. by apply is_Some_insert, (HU a).
  - intros t i. unfold hasOutput. rewrite lookup_insert_ne by apply HnO.
    intros H. destruct (HO t i H) as [[a Ha] | [a Ha]].
    + left. exists a. by apply is_Some_insert.
    + right. exists a. by apply is_Some_insert.
Qed.

(** The two Sets of a new output. *)
Lemma ledger_inv_output (s : KVStore) (o : Output) :
  ledger_inv s → ledger_inv (foldl apply_mutation s (output_ops o)).
Proof.
  intros [HU HO]. unfold output_ops. cbn [foldl apply_mutation].
  rewrite Output_key_eq, Output_UTXOKey_eq. split.
  - intros a t i H. unfold hasOutput.
    destruct (decide (unspentKey (Address o) (TransactionID o) (OutputIndex o)
                      = unspentKey a t i)) as [E | Hne].
    + apply unspentKey_inj in E as (_ & E & _). rewrite <- E.
      apply is_Some_insert. rewrite lookup_insert_eq. by eexists.
    + rewrite lookup_insert_ne in H by done.
      rewrite lookup_insert_ne in H by key_ne.
      by apply is_Some_insert, is_Some_insert, (HU a).
  - intros t i H. unfold hasOutput in H.
    rewrite lookup_insert_ne in H by key_ne.
    destruct (decide (outputKey (TransactionID o) (OutputIndex o) = outputKey t i))
      as [E | Hne].
    + left. exists (Address o).
      destruct (outputKey_same_identity _ _ _ _ (Address o) E) as [<- _].
      rewrite lookup_insert_eq. by eexists.
    + rewrite lookup_insert_ne in H by done.
      destruct (HO t i H) as [[a Ha] | [a Ha]].
      * left. exists a. by apply is_Some_insert, is_Some_insert.
      * right. exists a. by apply is_Some_insert, is_Some_insert.
Qed.

(** The Delete and the Set of a spent. *)
Lemma ledger_inv_spent (s : KVStore) (d : bool) (sp : Spent) :
  ledger_inv s → ledger_inv (foldl apply_mutation s (spent_ops d sp)).
Proof.
  intros Hinv. unfold spent_ops. rewrite foldl_app. cbn [foldl apply_mutation].
  rewrite Spent_spentKey_eq.
  destruct d; cbn [foldl apply_mutation];
    [| apply ledger_inv_insert_other; [intros; key_ne | intros; key_ne | done]].
  rewrite Spent_unspentKey_eq.
  set (a0 := Address (SpentOutput sp)). set (t0 := TransactionID (SpentOutput sp)).
  set (i0 := OutputIndex (SpentOutput sp)).
  destruct Hinv as [HU HO]. split.
  - intros a t i H. rewrite lookup_insert_ne in H by key_ne.
    unfold hasOutput. rewrite lookup_insert_ne by key_ne.
    rewrite lookup_delete_ne by key_ne.
    apply (HU a). rewrite lookup_delete in H. by case_decide; [destruct H |].
  - intros t i H. unfold hasOutput in H.
    rewrite lookup_insert_ne in H by key_ne.
    rewrite lookup_delete_ne in H by key_ne.
    destruct (HO t i H) as [[a Ha] | [a Ha]].
    + destruct (decide (unspentKey a0 t0 i0 = unspentKey a t i)) as [E | Hne].
      * right. exists a. apply unspentKey_inj in E as (_ & _ & <-).
        rewrite lookup_insert_eq. by eexists.
      * left. exists a. rewrite lookup_insert_ne by key_ne.
        by rewrite lookup_delete_ne.
    + right. exists a. apply is_Some_insert. by rewrite lookup_delete_ne by key_ne.
Qed.

Lemma ledger_inv_ApplyConfirmation (F : Faults) (s : KVStore) (msIndex : Z)
    (newOutputs : list Output) (newSpents : list Spent) :
  ledger_inv s → ledger_inv (ApplyConfirmation F s msIndex newOutputs newSpents).1.
Proof.
  intros Hinv.
  destruct (ApplyConfirmation_cases F s msIndex newOutputs newSpents)
    as [[err ->] | (ds & _ & _ & ->)]; [done |]. simpl.
  rewrite foldl_full_batch.
  apply ledger_inv_insert_other; [intros; key_ne | intros; key_ne |].
  apply foldl_blocks_preserve.
  { apply Forall_spent_blocks. intros d sp _ s0. apply ledger_inv_spent. }
  apply foldl_blocks_preserve; [| done].
  apply Forall_fmap, Forall_forall. intros o _ s0. apply ledger_inv_output.
Qed.

Lemma reachable_ledger_inv (s : KVStore) : reachable s → ledger_inv s.
Proof.
  induction 1 as [| F s msIndex newOutputs newSpents _ IH].
  - apply ledger_inv_empty.
  - by apply ledger_inv_ApplyConfirmation.
Qed.

(** C2, as stated, fails.  From the empty store, one call with a spent
    whose output was never stored leaves the identity in the Spent index
    without an Output record; and creating an output, spending it and
    passing it as a new output again leaves the identity in the Unspent
    and in the Spent index at once. *)
Lemma reachable_stores_break_exclusion :
  reachable store_orphan
  ∧ inSpent store_orphan tx1 0
  ∧ ¬ hasOutput store_orphan tx1 0
  ∧ reachable store7
  ∧ inUnspent store7 tx1 0
  ∧ inSpent store7 tx1 0.
Proof.
  split; [unfold store_orphan; apply reachable_apply, reachable_empty |].
  split; [exists addrA; vm_compute; by eexists |].
  split; [intros [v Hv]; vm_compute in Hv; discriminate |].
  split; [unfold store7, store6, store5;
          repeat apply reachable_apply; apply reachable_empty |].
  split; exists addrA; vm_compute; by eexists.
Qed.

(** C2, amended.  Starting from an empty store, after any sequence of
    calls: an identity with an Unspent marker has its Output record, and
    an identity whose Output record exists is in the Unspent index or in
    the Spent index.  (A Spent record may be there without an Output
    record, and an identity may be in both indices, because a call does
    not compare its lists with the store.) *)
Theorem reachable_unspent_and_output (s : KVStore) (tx : vec byte 32) (idx : Z) :
  reachable s →
  (inUnspent s tx idx → hasOutput s tx idx)
  ∧ (hasOutput s tx idx → inUnspent s tx idx ∨ inSpent s tx idx).
Proof.
  intros Hr. destruct (reachable_ledger_inv s Hr) as [HU HO].
  split; [| apply HO]. intros [a Ha]. by apply (HU a).
Qed.

Lemma reachable_unspent_and_output_witness :
  (inUnspent store7 tx1 0 → hasOutput store7 tx1 0)
  ∧ (hasOutput store7 tx1 0 → inUnspent store7 tx1 0 ∨ inSpent store7 tx1 0).
Proof.
  apply (reachable_unspent_and_output store7 tx1 0).
  unfold store7, store6, store5. repeat apply reachable_apply. apply reachable_empty.
Defined.

(** ** The ledger store: listing the unspent outputs of an address *)

#[global] Instance key_le_total : Total key_le.
Proof.
  intros a. induction a as [| x a IH]; intros [| y b]; unfold key_le; simpl; auto.
  destruct (Z.ltb_spec (Z_of_byte x) (Z_of_byte y)); [auto |].
  destruct (Z.ltb_spec (Z_of_byte y) (Z_of_byte x)); [auto |].
  apply IH.
Qed.

(** An iteration visits exactly the keys of the store that start with the
    prefix, in ascending order. *)
Lemma keys_with_prefix_sorted (s : KVStore) (prefix : list byte) :
  Sorted key_le (keys_with_prefix s prefix)
  ∧ ∀ key, key ∈ keys_with_prefix s prefix ↔ is_Some (s !! key) ∧ prefix `prefix_of` key.
Proof.
  unfold keys_with_prefix. split; [apply Sorted_merge_sort, _ |].
  intros key. rewrite merge_sort_Permutation, list_elem_of_filter, list_elem_of_fmap.
  split.
  - intros [Hp [[k v] [-> Hkv]]]. split; [| done].
    apply elem_of_map_to_list in Hkv. by eexists.
  - intros [[v Hv] Hp]. split; [done |]. exists (key, v). split; [done |].
    by apply elem_of_map_to_list.
Qed.

Lemma unspentConsumer_join (F : Faults) (s : KVStore) (key : Key)
    (outputs : list Output) :
  unspentConsumer F s key outputs
  = match join F s key with
    | Some output => (outputs ++ [output], true)
    | None => (outputs, false)
    end.
Proof.
  unfold unspentConsumer, join. cbn [app drop].
  destruct (Get F s _) as [value [err|]]; [done |].
  by destruct (Output_kvStorableLoad _ value).
Qed.

(** Without a failure of the iteration, the loop collects the outputs up
    to the first entry that does not join and ends without an error. *)
Lemma iterate_joined_run (F : Faults) (s : KVStore) (keys : list Key)
    (acc : list Output) :
  iterate None (unspentConsumer F s) keys acc = (acc ++ joined_run F s keys, None).
Proof.
  revert acc. induction keys as [| key keys IH]; intros acc; simpl.
  - by rewrite app_nil_r.
  - rewrite unspentConsumer_join. destruct (join F s key) as [o|].
    + rewrite IH. by rewrite <- app_assoc.
    + by rewrite app_nil_r.
Qed.

(** An error that the loop returns is the one the iteration broke with. *)
Lemma iterate_error_origin {A : Type} (break : option (nat * error))
    (consumer : Key → A → A * bool) (keys : list Key) (acc acc' : A) (err : error) :
  iterate break consumer keys acc = (acc', Some err) →
  ∃ n, break = Some (n, err).
Proof.
  revert break acc. induction keys as [| key keys IH]; intros break acc H.
  - destruct break as [[[| n] e] |]; simpl in H; [| done | done].
    exists 0%nat. congruence.
  - destruct break as [[[| n] e] |]; simpl in H.
    + exists 0%nat. congruence.
    + destruct (consumer key acc) as [acc1 [|]]; [| done].
      apply IH in H as [n' Hn']. simpl in Hn'. exists (S n). congruence.
    + destruct (consumer key acc) as [acc1 [|]]; [| done].
      by apply IH in H as [n' Hn'].
Qed.

(** The consumer at an entry it cannot join.  In [store_gap] the first
    Unspent entry of the address has no Output record and the second one
    has: the call returns no output at all, where skipping would return
    [out3].  With a store whose lookup of the first Output record fails,
    the call returns no output and no error, where the consumer section
    4.3 describes keeps the error for the caller. *)
Lemma UnspentOutputsForAddress_stops_silently :
  is_Some (store_gap !! unspentKey addrA tx3 0)
  ∧ is_Some (store_gap !! outputKey tx3 0)
  ∧ UnspentOutputsForAddress no_faults store_gap addrA = ([], None)
  ∧ UnspentOutputsForAddress_described no_faults store_gap addrA = ([out3], None)
  ∧ get_err get_fault (outputKey tx1 0) = Some (ErrStoreIO 5)
  ∧ UnspentOutputsForAddress get_fault store_both addrA = ([], None)
  ∧ UnspentOutputsForAddress_described get_fault store_both addrA
    = ([], Some (ErrStoreIO 5)).
Proof.
  split; [vm_compute; by eexists |].
  split; [vm_compute; by eexists |].
  repeat split; vm_compute; reflexivity.
Qed.

(** What the call returns for any store.  It visits the Unspent entries
    of the address in key order and stops at the first entry whose Output
    record cannot be read, be it missing, refused by the store or not
    decodable: it returns the outputs collected before that entry and no
    error.  The only error it returns is the one the key iteration itself
    ends with. *)
Lemma UnspentOutputsForAddress_stops_at_first_gap (F : Faults) (s : KVStore)
    (address : vec byte 32) :
  (iterate_err F ([UTXOStoreKeyPrefixUnspent] ++ vec_to_list address) = None →
   UnspentOutputsForAddress F s address
   = (joined_run F s
        (keys_with_prefix s ([UTXOStoreKeyPrefixUnspent] ++ vec_to_list address)),
      None))
  ∧ (∀ err, (UnspentOutputsForAddress F s address).2 = Some err →
       ∃ n, iterate_err F ([UTXOStoreKeyPrefixUnspent] ++ vec_to_list address)
            = Some (n, err)).
Proof.
  unfold UnspentOutputsForAddress, IterateKeys. split.
  - intros ->. by rewrite iterate_joined_run.
  - intros err H.
    destruct (iterate _ _ _ _) as [outputs e] eqn:E. simpl in H. subst e.
    by apply iterate_error_origin in E.
Qed.

(** C6: the code at a store it reaches, with a lookup that fails.
    [store_both] is the store after one call that created [out1] and
    [out3], both of the same address; the store's [Get] of the Output
    record of [out1] fails with an I/O error.  Reading [out1] by its
    identity returns that error, and [out3] is stored, unspent and
    readable.  Listing the unspent outputs of the address returns the
    empty list and no error: the consumer has the error of [Get] in hand
    and returns [false], which ends the iteration as if it were complete.
    The consumer that section 4.3 describes returns the error.  Without
    the failure the list is [out1; out3]. *)
Theorem UnspentOutputsForAddress_drops_store_error :
  reachable store_both
  ∧ Get get_fault store_both (outputKey tx1 0) = ([], Some (ErrStoreIO 5))
  ∧ ReadOutputForTransactionWithoutLocking get_fault store_both tx1 0
    = Fail (ErrStoreIO 5)
  ∧ ReadOutputForTransactionWithoutLocking get_fault store_both tx3 0 = Ret out3
  ∧ is_Some (store_both !! unspentKey addrA tx1 0)
  ∧ is_Some (store_both !! unspentKey addrA tx3 0)
  ∧ iterate_err get_fault ([UTXOStoreKeyPrefixUnspent] ++ vec_to_list addrA) = None
  ∧ UnspentOutputsForAddress get_fault store_both addrA = ([], None)
  ∧ UnspentOutputsForAddress_described get_fault store_both addrA
    = ([], Some (ErrStoreIO 5))
  ∧ UnspentOutputsForAddress no_faults store_both addrA = ([out1; out3], None).
Proof.
  split; [apply (reachable_apply no_faults ∅ 5 [out1; out3] [] reachable_empty) |].
  split; [vm_compute; reflexivity |].
  split; [vm_compute; reflexivity |].
  split; [vm_compute; reflexivity |].
  split; [vm_compute; by eexists |].
  split; [vm_compute; by eexists |].
  split; [reflexivity |].
  repeat split; vm_compute; reflexivity.
Qed.

(** Scenario A of the specification: after milestone 5 the only unspent
    output of the address is [out1]; with both outputs stored the call
    lists them in key order. *)
Example unspent_outputs_after_milestone_5 :
  UnspentOutputsForAddress no_faults store5 addrA = ([out1], None)
  ∧ UnspentOutputsForAddress no_faults store_both addrA = ([out1; out3], None).
Proof. split; vm_compute; reflexivity. Qed.

(** Scenario B: after milestone 6 the marker of [out1] is gone, its Output
    record and its Spent record are there. *)
Example spent_after_milestone_6 :
  store6 !! unspentKey addrA tx1 0 = None
  ∧ store6 !! spentKey addrA tx1 0 = Some (vec_to_list tx2)
  ∧ store6 !! outputKey tx1 0 = Some (Output_kvStorableValue out1).
Proof. repeat split; vm_compute; reflexivity. Qed.

(** * Further properties *)

(** ** The flag byte *)

Lemma bit_outside (pos : Z) : pos < 0 ∨ 8 ≤ pos → bit pos = 0.
Proof.
  unfold bit. intros [Hneg | Hbig].
  - rewrite Z.shiftl_1_l, Z.pow_neg_r by lia. reflexivity.
  - rewrite Z.shiftl_1_l. replace pos with (8 + (pos - 8)) by lia.
    rewrite Z.pow_add_r by lia. change (2 ^ 8) with 256.
    by rewrite Z.mul_comm, Z.mod_mul.
Qed.

Lemma HasBit_outside (b : BitMask) (pos : Z) : pos < 0 ∨ 8 ≤ pos → HasBit b pos = false.
Proof. intros H. unfold HasBit. rewrite bit_outside by done. by rewrite Z.land_0_r. Qed.

Lemma HasBit_ModifyBit_same (b : BitMask) (pos : Z) (state : bool) :
  pos = 0 ∨ pos = 1 ∨ pos = 2 → HasBit (ModifyBit b pos state) pos = state.
Proof. intros [-> | [-> | ->]]; destruct b, state; reflexivity. Qed.

Lemma HasBit_ModifyBit_other (b : BitMask) (pos other : Z) (state : bool) :
  pos = 0 ∨ pos = 1 ∨ pos = 2 → other ≠ pos →
  HasBit (ModifyBit b pos state) other = HasBit b other.
Proof.
  intros Hpos Hne.
  destruct (decide (other < 0 ∨ 8 ≤ other)) as [Hout | Hin].
  { by rewrite !HasBit_outside. }
  assert (Hc : other = 0 ∨ other = 1 ∨ other = 2 ∨ other = 3 ∨ other = 4
               ∨ other = 5 ∨ other = 6 ∨ other = 7) by lia.
  destruct Hpos as [-> | [-> | ->]];
    destruct Hc as [-> | [-> | [-> | [-> | [-> | [-> | [-> | ->]]]]]]];
    try done; destruct b, state; reflexivity.
Qed.

Lemma ModifyBit_comm (b : BitMask) (p q : Z) (s1 s2 : bool) :
  p = 0 ∨ p = 1 ∨ p = 2 → q = 0 ∨ q = 1 ∨ q = 2 → p ≠ q →
  ModifyBit (ModifyBit b p s1) q s2 = ModifyBit (ModifyBit b q s2) p s1.
Proof.
  intros [-> | [-> | ->]] [-> | [-> | ->]] Hne; try done;
    destruct b, s1, s2; reflexivity.
Qed.

(** ** Message metadata: what each setter does *)

(** X1.  After [SetSolid(solid)] the record reports [solid]; the
    timestamp is the clock (as an [int32]) when the flag went from false
    to true, zero when it went from true to false, and what it was when
    the flag did not change. *)
Theorem SetSolid_result (now : Z) (solid : bool) (m : MessageMetadata) :
  IsSolid (SetSolid now solid m) = solid
  ∧ GetSolidificationTimestamp (SetSolid now solid m)
    = if eqb solid (IsSolid m) then GetSolidificationTimestamp m
      else if solid then int32 now else 0.
Proof.
  unfold SetSolid, IsSolid, GetSolidificationTimestamp.
  destruct (eqb solid (HasBit (metadata m) MessageMetadataSolid)) eqn:E; simpl.
  - apply eqb_prop in E. by split.
  - split; [| by destruct solid].
    destruct solid; simpl;
      [exact (HasBit_ModifyBit_same _ _ true ltac:(by left))
      | exact (HasBit_ModifyBit_same _ _ false ltac:(by left))].
Qed.

(** X2.  After [SetConfirmed(confirmed, index)] the record reports
    [confirmed]; the confirmation index is [index] when the flag went from
    false to true, zero when it went from true to false, and what it was
    when the flag did not change. *)
Theorem SetConfirmed_result (confirmed : bool) (index : Z) (m : MessageMetadata) :
  GetConfirmed (SetConfirmed confirmed index m)
  = (confirmed,
     if eqb confirmed (IsConfirmed m) then confirmationIndex m
     else if confirmed then index else 0).
Proof.
  unfold SetConfirmed, IsConfirmed, GetConfirmed.
  destruct (eqb confirmed (HasBit (metadata m) MessageMetadataConfirmed)) eqn:E; simpl.
  - apply eqb_prop in E. by rewrite <- E.
  - f_equal; [| by destruct confirmed].
    destruct confirmed; simpl;
      [exact (HasBit_ModifyBit_same _ _ true ltac:(right; by left))
      | exact (HasBit_ModifyBit_same _ _ false ltac:(right; by left))].
Qed.

(** X3.  After [SetConflicting(conflicting)] the record reports
    [conflicting], and its timestamp, confirmation index and cone-root
    indices are what they were. *)
Theorem SetConflicting_result (conflicting : bool) (m : MessageMetadata) :
  IsConflicting (SetConflicting conflicting m) = conflicting
  ∧ GetSolidificationTimestamp (SetConflicting conflicting m)
    = GetSolidificationTimestamp m
  ∧ (GetConfirmed (SetConflicting conflicting m)).2 = (GetConfirmed m).2
  ∧ GetConeRootIndexes (SetConflicting conflicting m) = GetConeRootIndexes m.
Proof.
  unfold SetConflicting, IsConflicting.
  destruct (eqb conflicting (HasBit (metadata m) MessageMetadataConflicting)) eqn:E;
    simpl.
  - apply eqb_prop in E. by repeat split.
  - repeat split.
    exact (HasBit_ModifyBit_same _ _ conflicting ltac:(right; by right)).
Qed.

(** X4.  A flag setter changes its own bit of the flag byte only: after
    [SetSolid], [SetConfirmed] or [SetConflicting] every other bit, the
    two other flags among them, reads as before. *)
Theorem setters_keep_other_bits (now index : Z) (state : bool) (m : MessageMetadata)
    (pos : Z) :
  (pos ≠ MessageMetadataSolid →
   HasBit (GetMetadata (SetSolid now state m)) pos = HasBit (GetMetadata m) pos)
  ∧ (pos ≠ MessageMetadataConfirmed →
     HasBit (GetMetadata (SetConfirmed state index m)) pos = HasBit (GetMetadata m) pos)
  ∧ (pos ≠ MessageMetadataConflicting →
     HasBit (GetMetadata (SetConflicting state m)) pos = HasBit (GetMetadata m) pos).
Proof.
  unfold GetMetadata, SetSolid, SetConfirmed, SetConflicting.
  split; [| split]; intros Hne.
  - destruct (negb _); [| done]. destruct state; simpl;
      [exact (HasBit_ModifyBit_other _ _ _ true ltac:(by left) Hne)
      | exact (HasBit_ModifyBit_other _ _ _ false ltac:(by left) Hne)].
  - destruct (negb _); [| done]. destruct state; simpl;
      [exact (HasBit_ModifyBit_other _ _ _ true ltac:(right; by left) Hne)
      | exact (HasBit_ModifyBit_other _ _ _ false ltac:(right; by left) Hne)].
  - destruct (negb _); [| done].
    exact (HasBit_ModifyBit_other _ _ _ state ltac:(right; by right) Hne).
Qed.

Lemma setters_keep_other_bits_witness :
  HasBit (GetMetadata (SetSolid 1600000000 true sample_metadata))
    MessageMetadataConflicting
  = HasBit (GetMetadata sample_metadata) MessageMetadataConflicting.
Proof.
  apply (proj1 (setters_keep_other_bits 1600000000 0 true sample_metadata
                  MessageMetadataConflicting)).
  discriminate.
Defined.

(** X5.  No setter changes the identity of a record: messageID and both
    parents are the same after [SetSolid], [SetConfirmed],
    [SetConflicting] and [SetConeRootIndexes]. *)
Theorem setters_keep_identity (now index ycri ocri ci : Z) (state : bool)
    (m : MessageMetadata) :
  let same (m' : MessageMetadata) :=
    GetMessageID m' = GetMessageID m
    ∧ GetParent1MessageID m' = GetParent1MessageID m
    ∧ GetParent2MessageID m' = GetParent2MessageID m in
  same (SetSolid now state m)
  ∧ same (SetConfirmed state index m)
  ∧ same (SetConflicting state m)
  ∧ same (SetConeRootIndexes ycri ocri ci m).
Proof.
  unfold SetSolid, SetConfirmed, SetConflicting, SetConeRootIndexes. simpl.
  repeat split; try (destruct (negb _); [destruct state |]; reflexivity).
Qed.

(** X6.  The modified mark follows every change: a flag setter either
    returns the record exactly as it was or returns it marked modified,
    [SetConeRootIndexes] always marks it, and no setter clears a mark
    that is set. *)
Theorem setters_mark_what_they_change (now index ycri ocri ci : Z) (state : bool)
    (m : MessageMetadata) :
  (SetSolid now state m = m ∨ modified (SetSolid now state m) = true)
  ∧ (SetConfirmed state index m = m ∨ modified (SetConfirmed state index m) = true)
  ∧ (SetConflicting state m = m ∨ modified (SetConflicting state m) = true)
  ∧ modified (SetConeRootIndexes ycri ocri ci m) = true
  ∧ (modified m = true →
     modified (SetSolid now state m) = true
     ∧ modified (SetConfirmed state index m) = true
     ∧ modified (SetConflicting state m) = true).
Proof.
  unfold SetSolid, SetConfirmed, SetConflicting, SetConeRootIndexes.
  repeat split; try (destruct (negb _); [by right | by left]);
    destruct (negb _); done.
Qed.

Lemma setters_mark_what_they_change_witness :
  modified (SetSolid 1600000000 false sample_metadata) = true
  ∧ modified (SetConfirmed false 9 sample_metadata) = true
  ∧ modified (SetConflicting false sample_metadata) = true.
Proof.
  apply (proj2 (proj2 (proj2 (proj2
    (setters_mark_what_they_change 1600000000 9 0 0 0 false sample_metadata))))).
  reflexivity.
Defined.

(** The setters on a record given field by field. *)
Lemma SetSolid_fields (now : Z) (solid : bool) (md : bool) (mid : Hash) (b : BitMask)
    (ts cidx y o c : Z) (p1 p2 : Hash) :
  SetSolid now solid (mkMessageMetadata md mid b ts cidx y o c p1 p2)
  = if negb (eqb solid (HasBit b 0))
    then mkMessageMetadata true mid (ModifyBit b 0 solid)
           (if solid then int32 now else 0) cidx y o c p1 p2
    else mkMessageMetadata md mid b ts cidx y o c p1 p2.
Proof. unfold SetSolid. simpl. by destruct (negb _), solid. Qed.

Lemma SetConfirmed_fields (confirmed : bool) (index : Z) (md : bool) (mid : Hash)
    (b : BitMask) (ts cidx y o c : Z) (p1 p2 : Hash) :
  SetConfirmed confirmed index (mkMessageMetadata md mid b ts cidx y o c p1 p2)
  = if negb (eqb confirmed (HasBit b 1))
    then mkMessageMetadata true mid (ModifyBit b 1 confirmed) ts
           (if confirmed then index else 0) y o c p1 p2
    else mkMessageMetadata md mid b ts cidx y o c p1 p2.
Proof. unfold SetConfirmed. simpl. by destruct (negb _), confirmed. Qed.

Lemma SetConflicting_fields (conflicting : bool) (md : bool) (mid : Hash)
    (b : BitMask) (ts cidx y o c : Z) (p1 p2 : Hash) :
  SetConflicting conflicting (mkMessageMetadata md mid b ts cidx y o c p1 p2)
  = if negb (eqb conflicting (HasBit b 2))
    then mkMessageMetadata true mid (ModifyBit b 2 conflicting) ts cidx y o c p1 p2
    else mkMessageMetadata md mid b ts cidx y o c p1 p2.
Proof. unfold SetConflicting. simpl. by destruct (negb _). Qed.

Ltac setters_fields :=
  rewrite ?SetSolid_fields, ?SetConfirmed_fields, ?SetConflicting_fields.

(** X7.  The three flag setters commute: applied in either order they
    give the same record. *)
Theorem flag_setters_commute (now index : Z) (solid confirmed conflicting : bool)
    (m : MessageMetadata) :
  SetConfirmed confirmed index (SetSolid now solid m)
  = SetSolid now solid (SetConfirmed confirmed index m)
  ∧ SetConflicting conflicting (SetSolid now solid m)
    = SetSolid now solid (SetConflicting conflicting m)
  ∧ SetConflicting conflicting (SetConfirmed confirmed index m)
    = SetConfirmed confirmed index (SetConflicting conflicting m).
Proof.
  assert (H01 : ∀ b s1 s2, ModifyBit (ModifyBit b 0 s1) 1 s2
                           = ModifyBit (ModifyBit b 1 s2) 0 s1).
  { intros. apply ModifyBit_comm; [by left | right; by left | done]. }
  assert (H02 : ∀ b s1 s2, ModifyBit (ModifyBit b 0 s1) 2 s2
                           = ModifyBit (ModifyBit b 2 s2) 0 s1).
  { intros. apply ModifyBit_comm; [by left | right; by right | done]. }
  assert (H12 : ∀ b s1 s2, ModifyBit (ModifyBit b 1 s1) 2 s2
                           = ModifyBit (ModifyBit b 2 s2) 1 s1).
  { intros. apply ModifyBit_comm; [right; by left | right; by right | done]. }
  assert (Hk : ∀ b p q st, (p = 0 ∨ p = 1 ∨ p = 2) → q ≠ p →
                           HasBit (ModifyBit b p st) q = HasBit b q).
  { intros. by apply HasBit_ModifyBit_other. }
  destruct m as [md mid b ts cidx y o c p1 p2].
  split; [| split]; setters_fields.
  - destruct (negb (eqb solid (HasBit b 0))) eqn:E0;
      destruct (negb (eqb confirmed (HasBit b 1))) eqn:E1;
      setters_fields;
      rewrite ?Hk by (first [by left | right; by left | done]);
      rewrite ?E0, ?E1, ?H01; reflexivity.
  - destruct (negb (eqb solid (HasBit b 0))) eqn:E0;
      destruct (negb (eqb conflicting (HasBit b 2))) eqn:E2;
      setters_fields;
      rewrite ?Hk by (first [by left | right; by right | done]);
      rewrite ?E0, ?E2, ?H02; reflexivity.
  - destruct (negb (eqb confirmed (HasBit b 1))) eqn:E1;
      destruct (negb (eqb conflicting (HasBit b 2))) eqn:E2;
      setters_fields;
      rewrite ?Hk by (first [right; by left | right; by right | done]);
      rewrite ?E1, ?E2, ?H12; reflexivity.
Qed.

(** ** Message metadata: the stored bytes *)

(** X8.  The stored value starts with the flag byte, which carries solid
    in bit 0, confirmed in bit 1 and conflicting in bit 2; the value is 21
    bytes and the two parents long, 85 bytes for parents of 32 bytes. *)
Theorem stored_flag_byte (m : MessageMetadata) :
  head (ObjectStorageValue m) = Some (GetMetadata m)
  ∧ IsSolid m = Z.testbit (Z_of_byte (GetMetadata m)) 0
  ∧ IsConfirmed m = Z.testbit (Z_of_byte (GetMetadata m)) 1
  ∧ IsConflicting m = Z.testbit (Z_of_byte (GetMetadata m)) 2
  ∧ length (ObjectStorageValue m)
    = (21 + length (GetParent1MessageID m) + length (GetParent2MessageID m))%nat.
Proof.
  unfold IsSolid, IsConfirmed, IsConflicting, GetMetadata.
  split; [reflexivity |].
  split; [by destruct (metadata m) |].
  split; [by destruct (metadata m) |].
  split; [by destruct (metadata m) |].
  unfold ObjectStorageValue. rewrite !length_app. simpl.
  unfold GetParent1MessageID, GetParent2MessageID. lia.
Qed.

Ltac bits_norm :=
  repeat first
    [ rewrite Z.lor_spec
    | match goal with
      | |- context [Z.testbit ?a ?i] =>
          rewrite (Z.testbit_neg_r a i) by lia
      | |- context [Z.testbit (Z.shiftl ?a ?k) ?i] =>
          rewrite (Z.shiftl_spec a k i) by lia
      | |- context [Z.testbit (Z.shiftr ?a ?k) ?i] =>
          rewrite (Z.shiftr_spec a k i) by lia
      | |- context [Z.testbit (?a mod 2 ^ ?w) ?i] =>
          first [ rewrite (Z.mod_pow2_bits_low a w i) by lia
                | rewrite (Z.mod_pow2_bits_high a w i) by lia ]
      end ];
  rewrite ?orb_false_r, ?orb_false_l.

(** Each byte of a word put together from four bytes. *)
Lemma word_lanes (a0 a1 a2 a3 : Z) :
  let w := Z.lor (Z.lor (Z.lor (a0 mod 2 ^ 8) (Z.shiftl (a1 mod 2 ^ 8) 8))
                        (Z.shiftl (a2 mod 2 ^ 8) 16))
                 (Z.shiftl (a3 mod 2 ^ 8) 24) mod 2 ^ 32 in
  w mod 2 ^ 8 = a0 mod 2 ^ 8
  ∧ Z.shiftr w 8 mod 2 ^ 8 = a1 mod 2 ^ 8
  ∧ Z.shiftr w 16 mod 2 ^ 8 = a2 mod 2 ^ 8
  ∧ Z.shiftr w 24 mod 2 ^ 8 = a3 mod 2 ^ 8.
Proof.
  intros w. unfold w.
  repeat split; apply Z.bits_inj'; intros n Hn;
    (destruct (Z_lt_dec n 8) as [Hlt | Hge];
     [bits_norm; f_equal; lia | bits_norm; reflexivity]).
Qed.

Lemma byte_of_Z_eq (v : Z) (b : byte) : v mod 256 = Z_of_byte b → byte_of_Z v = b.
Proof.
  intros H. unfold byte_of_Z. rewrite H. unfold Z_of_byte.
  by rewrite N2Z.id, Byte.of_to_N.
Qed.

Lemma Z_of_byte_mod (b : byte) : Z_of_byte b mod 2 ^ 8 = Z_of_byte b.
Proof.
  apply Z.mod_small. unfold Z_of_byte. pose proof (Byte.to_N_bounded b). lia.
Qed.

(** Four bytes read as a word and written again are the same bytes. *)
Lemma PutUint32_word (b0 b1 b2 b3 : byte) :
  binary.PutUint32
    (uint32 (Z.lor (Z.lor (Z.lor (Z_of_byte b0) (Z.shiftl (Z_of_byte b1) 8))
                          (Z.shiftl (Z_of_byte b2) 16))
                   (Z.shiftl (Z_of_byte b3) 24)))
  = [b0; b1; b2; b3].
Proof.
  unfold binary.PutUint32, uint32.
  destruct (word_lanes (Z_of_byte b0) (Z_of_byte b1) (Z_of_byte b2) (Z_of_byte b3))
    as (H0 & H1 & H2 & H3).
  rewrite !Z_of_byte_mod in H0, H1, H2, H3.
  change (2 ^ 8) with 256 in *.
  by rewrite (byte_of_Z_eq _ b0 H0), (byte_of_Z_eq _ b1 H1), (byte_of_Z_eq _ b2 H2),
    (byte_of_Z_eq _ b3 H3).
Qed.

Lemma uint32_int32 (w : Z) : uint32 (int32 w) = uint32 w.
Proof.
  unfold int32, uint32.
  change (2 ^ 32) with 4294967296. change (2 ^ 31) with 2147483648.
  Z.div_mod_to_equations. lia.
Qed.

Lemma contents_slice_of (l : list byte) : contents (slice_of l) = l.
Proof. unfold contents, slice_of. simpl. apply firstn_all. Qed.

(** The record read at the fixed offsets encodes to the first 85 bytes. *)
Lemma ObjectStorageValue_decoded (key data : slice) :
  (85 ≤ cap data)%nat →
  ObjectStorageValue (decoded key data) = take 85 (arr data).
Proof.
  unfold cap. destruct data as [a n]. simpl. intros Hlen.
  do 21 (destruct a as [| ? a]; [simpl in Hlen; lia |]).
  simpl in Hlen.
  unfold ObjectStorageValue, decoded, word_at.
  cbn [metadata solidificationTimestamp confirmationIndex youngestConeRootIndex
       oldestConeRootIndex coneRootCalculationIndex parent1MessageID
       parent2MessageID arr nth Nat.add drop].
  rewrite uint32_int32, !PutUint32_word.
  cbn [app take]. do 21 f_equal.
  change 64%nat with (32 + 32)%nat. by rewrite take_take_drop.
Qed.

(** X9.  A record decoded from a key of 32 bytes and a value of 85 bytes
    encodes to the same key and the same value, and is not marked
    modified: loading and storing again changes no stored byte. *)
Theorem MetadataFactory_then_encode (key data : slice) (m : MessageMetadata) :
  len key = 32%nat → len data = 85%nat →
  MetadataFactory key data = Ret m →
  ObjectStorageKey m = contents key
  ∧ ObjectStorageValue m = contents data
  ∧ modified m = false.
Proof.
  intros Hk Hd Hm.
  destruct (decide (cap key < 32 ∨ cap data < 85)%nat) as [Hs | Hs].
  { by rewrite MetadataFactory_too_short in Hm. }
  rewrite MetadataFactory_long_enough in Hm by lia.
  injection Hm as <-. split; [| split].
  - unfold ObjectStorageKey, contents. simpl. by rewrite Hk.
  - rewrite ObjectStorageValue_decoded by lia. unfold contents. by rewrite Hd.
  - reflexivity.
Qed.

Lemma MetadataFactory_then_encode_witness :
  ObjectStorageKey (decoded key32 value85) = contents key32
  ∧ ObjectStorageValue (decoded key32 value85) = contents value85
  ∧ modified (decoded key32 value85) = false.
Proof.
  apply (MetadataFactory_then_encode key32 value85).
  - reflexivity.
  - reflexivity.
  - vm_compute. reflexivity.
Defined.

(** X10.  The encoding loses nothing but the modified mark: two records
    that fit their Go types and have the same storage key and the same
    storage value agree on every other field. *)
Theorem encoding_injective (m1 m2 : MessageMetadata) :
  in_range m1 → in_range m2 →
  ObjectStorageKey m1 = ObjectStorageKey m2 →
  ObjectStorageValue m1 = ObjectStorageValue m2 →
  SetModified false m1 = SetModified false m2.
Proof.
  intros Hr1 Hr2 Hkey Hval.
  assert (H1 := MetadataFactory_of_encoding m1 (slice_of (ObjectStorageKey m1))
                  (slice_of (ObjectStorageValue m1)) Hr1
                  (contents_slice_of _) (contents_slice_of _)).
  assert (H2 := MetadataFactory_of_encoding m2 (slice_of (ObjectStorageKey m2))
                  (slice_of (ObjectStorageValue m2)) Hr2
                  (contents_slice_of _) (contents_slice_of _)).
  rewrite Hkey, Hval in H1. congruence.
Qed.

Lemma encoding_injective_witness :
  SetModified false sample_metadata
  = SetModified false (SetModified false sample_metadata).
Proof.
  apply (encoding_injective sample_metadata (SetModified false sample_metadata)).
  - split; simpl; first [reflexivity | lia].
  - split; simpl; first [reflexivity | lia].
  - reflexivity.
  - reflexivity.
Defined.

(** ** The Hash type: hex strings *)

Lemma length_EncodeToString (l : list byte) :
  length (hex.EncodeToString l) = (2 * length l)%nat.
Proof.
  unfold hex.EncodeToString. induction l as [| b l IH]; simpl; [done |].
  rewrite IH. lia.
Qed.

Lemma digit_in_table (v : Z) : hex.digit v ∈ hex.hextable.
Proof.
  unfold hex.digit. apply list_elem_of_In.
  destruct (nth_in_or_default (Z.to_nat v) hex.hextable "0"%byte) as [H | ->];
    [done |].
  simpl. by left.
Qed.

Lemma digits_EncodeToString (l : list byte) :
  Forall (λ c, c ∈ hex.hextable) (hex.EncodeToString l).
Proof.
  unfold hex.EncodeToString. induction l as [| b l IH]; simpl; [constructor |].
  constructor; [apply digit_in_table |]. constructor; [apply digit_in_table | done].
Qed.

Lemma unhex_digits (b : byte) :
  byte_of_Z (16 * digit_value (hex.digit (Z.shiftr (Z_of_byte b) 4))
             + digit_value (hex.digit (Z.land (Z_of_byte b) 15))) = b.
Proof. destruct b; reflexivity. Qed.

Lemma unhex_EncodeToString (l : list byte) : unhex (hex.EncodeToString l) = l.
Proof.
  unfold hex.EncodeToString. induction l as [| b l IH]; [done |].
  cbn [flat_map app unhex]. by rewrite unhex_digits, IH.
Qed.

(** X11.  [Hex] of a Hash of 32 bytes is a string of 64 characters, all
    of them lower-case hex digits; for any other length [Hex] panics with
    that length, as [ID] does. *)
Theorem Hex_result (h : Hash) :
  (length h = 32%nat →
   ∃ str, Hex h = Ret str ∧ length str = 64%nat
          ∧ Forall (λ c, c ∈ hex.hextable) str)
  ∧ (length h ≠ 32%nat →
     Hex h = Panics (UnknownHashLength (length h))
     ∧ ID h = Panics (UnknownHashLength (length h))).
Proof.
  unfold Hex, ID. change MessageHashLength with 32%nat. split; intros Hl.
  - rewrite decide_True by done. eexists. split; [done |].
    split; [by rewrite length_EncodeToString, Hl | apply digits_EncodeToString].
  - by rewrite !decide_False by done.
Qed.

Lemma Hex_result_witness :
  (∃ str, Hex NullMessageID = Ret str ∧ length str = 64%nat
          ∧ Forall (λ c, c ∈ hex.hextable) str)
  ∧ Hex (replicate 31 x00) = Panics (UnknownHashLength 31)
  ∧ ID (replicate 31 x00) = Panics (UnknownHashLength 31).
Proof.
  split.
  - apply (proj1 (Hex_result NullMessageID)). reflexivity.
  - apply (proj2 (Hex_result (replicate 31 x00))). discriminate.
Defined.

(** X12.  Hashes with the same hex string are the same Hash. *)
Theorem Hex_injective (h1 h2 : Hash) (str : list byte) :
  Hex h1 = Ret str → Hex h2 = Ret str → h1 = h2.
Proof.
  unfold Hex. intros H1 H2.
  destruct (decide (length h1 = MessageHashLength)); [| done].
  destruct (decide (length h2 = MessageHashLength)); [| done].
  injection H1 as H1. injection H2 as H2.
  by rewrite <- (unhex_EncodeToString h1), <- (unhex_EncodeToString h2), H1, H2.
Qed.

Lemma Hex_injective_witness : NullMessageID = replicate 32 x00.
Proof.
  apply (Hex_injective NullMessageID (replicate 32 x00)
           (hex.EncodeToString NullMessageID)); reflexivity.
Defined.

Lemma Hashes_Hex_loop_valid (h : Hashes) (results : list (list byte)) :
  Forall (λ hash, length hash = 32%nat) h →
  Hashes_Hex_loop h results = Ret (results ++ (hex.EncodeToString <$> h)).
Proof.
  intros Hall. revert results.
  induction Hall as [| hash rest Hl _ IH]; intros results; simpl.
  - by rewrite app_nil_r.
  - unfold Hex. change MessageHashLength with 32%nat. rewrite decide_True by done.
    rewrite bind_Ret, IH. by rewrite <- app_assoc.
Qed.

(** X13.  [Hashes.Hex] gives the hex strings of the hashes in their
    order when every hash has 32 bytes, and none for an empty slice; it
    panics with the length of the first hash that has not. *)
Theorem Hashes_Hex_result (h : Hashes) :
  (Forall (λ hash, length hash = 32%nat) h →
   Hashes_Hex h = Ret (hex.EncodeToString <$> h))
  ∧ (∀ before bad after,
       h = before ++ bad :: after →
       Forall (λ hash, length hash = 32%nat) before →
       length bad ≠ 32%nat →
       Hashes_Hex h = Panics (UnknownHashLength (length bad))).
Proof.
  unfold Hashes_Hex. split.
  - intros Hall. by rewrite Hashes_Hex_loop_valid.
  - intros before bad after -> Hall Hbad.
    generalize (@nil (list byte)) as results.
    induction Hall as [| hash rest Hl _ IH]; intros results; simpl.
    + unfold Hex. change MessageHashLength with 32%nat.
      by rewrite decide_False by done.
    + unfold Hex at 1. change MessageHashLength with 32%nat.
      rewrite decide_True by done. rewrite bind_Ret. apply IH.
Qed.

Lemma Hashes_Hex_result_witness :
  Hashes_Hex [NullMessageID; NullMessageID]
  = Ret (hex.EncodeToString <$> [NullMessageID; NullMessageID])
  ∧ Hashes_Hex [NullMessageID; replicate 31 x00; replicate 5 x00]
    = Panics (UnknownHashLength 31).
Proof.
  split.
  - apply (proj1 (Hashes_Hex_result [NullMessageID; NullMessageID])).
    repeat constructor.
  - apply (proj2 (Hashes_Hex_result [NullMessageID; replicate 31 x00; replicate 5 x00])
             [NullMessageID] (replicate 31 x00) [replicate 5 x00]).
    + reflexivity.
    + repeat constructor.
    + discriminate.
Defined.

(** ** The ledger store: what a call leaves alone *)

Lemma lookup_output_ops (s : KVStore) (o : Output) (k : Key) :
  k ≠ outputKey (TransactionID o) (OutputIndex o) →
  k ≠ unspentKey (Address o) (TransactionID o) (OutputIndex o) →
  foldl apply_mutation s (output_ops o) !! k = s !! k.
Proof.
  intros H1 H2. unfold output_ops. cbn [foldl apply_mutation].
  rewrite Output_key_eq, Output_UTXOKey_eq.
  by rewrite !lookup_insert_ne.
Qed.

Lemma lookup_spent_ops (s : KVStore) (d : bool) (sp : Spent) (k : Key) :
  k ≠ unspentKey (Address (SpentOutput sp)) (TransactionID (SpentOutput sp))
        (OutputIndex (SpentOutput sp)) →
  k ≠ spentKey (Address (SpentOutput sp)) (TransactionID (SpentOutput sp))
        (OutputIndex (SpentOutput sp)) →
  foldl apply_mutation s (spent_ops d sp) !! k = s !! k.
Proof.
  intros H1 H2. unfold spent_ops. rewrite foldl_app. cbn [foldl apply_mutation].
  rewrite Spent_spentKey_eq, lookup_insert_ne by done.
  destruct d; cbn [foldl apply_mutation]; [| done].
  rewrite Spent_unspentKey_eq. by rewrite lookup_delete_ne.
Qed.

(** A key that no staged operation names reads the same after the call. *)
Lemma ApplyConfirmation_untouched (F : Faults) (s : KVStore) (msIndex : Z)
    (newOutputs : list Output) (newSpents : list Spent) (k : Key) :
  k ∉ touched_keys msIndex newOutputs newSpents →
  (ApplyConfirmation F s msIndex newOutputs newSpents).1 !! k = s !! k.
Proof.
  unfold touched_keys. rewrite !not_elem_of_app.
  intros (HO & HU & HsU & HsS & HD).
  destruct (ApplyConfirmation_cases F s msIndex newOutputs newSpents)
    as [[err ->] | (ds & _ & _ & ->)]; [done |]. simpl.
  rewrite foldl_full_batch.
  rewrite lookup_insert_ne by (intros E; apply HD; rewrite E; by left).
  apply (foldl_blocks_preserve (λ s0, s0 !! k = s !! k)).
  { apply Forall_spent_blocks. intros d sp Hsp s0 <-.
    apply lookup_spent_ops.
    - intros E. apply HsU, list_elem_of_fmap. by exists sp.
    - intros E. apply HsS, list_elem_of_fmap. by exists sp. }
  apply (foldl_blocks_preserve (λ s0, s0 !! k = s !! k)); [| done].
  apply Forall_fmap, Forall_forall. intros o Ho s0 <-.
  apply lookup_output_ops.
  - intros E. apply HO, list_elem_of_fmap. by exists o.
  - intros E. apply HU, list_elem_of_fmap. by exists o.
Qed.

(** X14.  A call changes the store only under the keys it stages: the
    Output and Unspent keys of its new outputs, the Unspent and Spent keys
    of its spents and the key of its diff.  In particular the Output
    record of an identity that is not among the new outputs is left as it
    was, also when the identity is spent by the call. *)
Theorem ApplyConfirmation_frame (F : Faults) (s : KVStore) (msIndex : Z)
    (newOutputs : list Output) (newSpents : list Spent) :
  (∀ k, k ∉ touched_keys msIndex newOutputs newSpents →
        (ApplyConfirmation F s msIndex newOutputs newSpents).1 !! k = s !! k)
  ∧ (∀ tx idx,
       (∀ o, o ∈ newOutputs →
             outputKey (TransactionID o) (OutputIndex o) ≠ outputKey tx idx) →
       (ApplyConfirmation F s msIndex newOutputs newSpents).1 !! outputKey tx idx
       = s !! outputKey tx idx).
Proof.
  split; [intros k; apply ApplyConfirmation_untouched |].
  intros tx idx Hnew. apply ApplyConfirmation_untouched.
  unfold touched_keys. rewrite !not_elem_of_app.
  repeat split; try (intros [x [E _]]%list_elem_of_fmap; revert E; key_ne).
  - intros [o [E Ho]]%list_elem_of_fmap. by apply (Hnew o Ho).
  - intros E%list_elem_of_singleton. revert E. key_ne.
Qed.

Lemma ApplyConfirmation_frame_witness :
  store6 !! outputKey tx1 0 = store5 !! outputKey tx1 0.
Proof.
  apply (proj2 (ApplyConfirmation_frame no_faults store5 6 [] [spent1]) tx1 0).
  intros o Ho. by apply elem_of_nil in Ho.
Defined.

(** X15.  A call never removes a record of the Output index, of the Spent
    index or of the diff journal: a key that is present and is not an
    Unspent marker is present afterwards. *)
Theorem ApplyConfirmation_keeps_records (F : Faults) (s : KVStore) (msIndex : Z)
    (newOutputs : list Output) (newSpents : list Spent) (k : Key) :
  (∀ addr tx idx, k ≠ unspentKey addr tx idx) →
  is_Some (s !! k) →
  is_Some ((ApplyConfirmation F s msIndex newOutputs newSpents).1 !! k).
Proof.
  intros Hk Hs.
  destruct (ApplyConfirmation_cases F s msIndex newOutputs newSpents)
    as [[err ->] | (ds & _ & _ & ->)]; [done |]. simpl.
  rewrite foldl_full_batch. apply is_Some_insert.
  apply (foldl_blocks_preserve (λ s0, is_Some (s0 !! k))).
  { apply Forall_spent_blocks. intros d sp _ s0.
    by apply is_Some_foldl, spent_ops_delete_unspent. }
  apply (foldl_blocks_preserve (λ s0, is_Some (s0 !! k))); [| done].
  apply Forall_fmap, Forall_forall. intros o _ s0.
  apply is_Some_foldl, output_ops_no_delete.
Qed.

Lemma ApplyConfirmation_keeps_records_witness :
  is_Some (store6 !! outputKey tx1 0).
Proof.
  apply (ApplyConfirmation_keeps_records no_faults store5 6 [] [spent1]).
  - intros addr tx idx. key_ne.
  - vm_compute. by eexists.
Defined.

(** ** The ledger store: new outputs, empty calls, other milestones *)

(** X16.  A new output that no spent of the same call names is unspent
    after a successful call: its Output record exists and its Unspent
    marker is there with an empty value. *)
Theorem new_output_is_unspent (F : Faults) (s s' : KVStore) (msIndex : Z)
    (newOutputs : list Output) (newSpents : list Spent) (o : Output) :
  o ∈ newOutputs →
  (∀ sp, sp ∈ newSpents → Spent_kvStorableKey sp ≠ Output_UTXOKey o) →
  ApplyConfirmation F s msIndex newOutputs newSpents = (s', None) →
  hasOutput s' (TransactionID o) (OutputIndex o)
  ∧ s' !! unspentKey (Address o) (TransactionID o) (OutputIndex o) = Some [].
Proof.
  intros Ho Hns H. apply ApplyConfirmation_success in H as (ds & _ & _ & ->).
  rewrite foldl_full_batch.
  set (P := λ s0 : KVStore,
         hasOutput s0 (TransactionID o) (OutputIndex o)
         ∧ s0 !! unspentKey (Address o) (TransactionID o) (OutputIndex o) = Some []).
  assert (HP : P (foldl apply_mutation
                    (foldl apply_mutation s (concat (output_ops <$> newOutputs)))
                    (concat (zip_with spent_ops ds newSpents)))).
  { apply foldl_blocks_preserve.
    { apply Forall_spent_blocks. intros d sp Hsp s0 [HO HU]. split.
      - apply is_Some_foldl; [| done].
        apply spent_ops_delete_unspent. intros; key_ne.
      - rewrite lookup_spent_ops; [done | | key_ne].
        intros E. apply (Hns sp Hsp). unfold unspentKey in E.
        by apply (inj (cons _)) in E. }
    apply (foldl_blocks_establish P _ (output_ops o)).
    - apply list_elem_of_fmap. by exists o.
    - intros s0. unfold output_ops. cbn [foldl apply_mutation].
      rewrite Output_key_eq, Output_UTXOKey_eq. split.
      + apply is_Some_insert. rewrite lookup_insert_eq. by eexists.
      + apply lookup_insert_eq.
    - apply Forall_fmap, Forall_forall. intros o' _ s0 [HO HU]. split.
      + by apply is_Some_foldl; [apply output_ops_no_delete |].
      + unfold output_ops. cbn [foldl apply_mutation].
        rewrite Output_key_eq, Output_UTXOKey_eq.
        rewrite lookup_insert. case_decide; [done |].
        by rewrite lookup_insert_ne by key_ne. }
  destruct HP as [HO HU]. split.
  - by apply is_Some_insert.
  - by rewrite lookup_insert_ne by key_ne.
Qed.

Lemma new_output_is_unspent_witness :
  hasOutput store_both tx3 0 ∧ store_both !! unspentKey addrA tx3 0 = Some [].
Proof.
  apply (new_output_is_unspent no_faults ∅ store_both 5 [out1; out3] [] out3).
  - apply list_elem_of_In. simpl. tauto.
  - intros sp Hsp. by apply elem_of_nil in Hsp.
  - apply pair_snd_None. vm_compute. reflexivity.
Defined.

(** X17.  A successful call with no new output and no spent still writes
    the diff record of its milestone, eight zero bytes for the two empty
    counts, and changes nothing else. *)
Theorem ApplyConfirmation_empty_lists (F : Faults) (s s' : KVStore) (msIndex : Z) :
  ApplyConfirmation F s msIndex [] [] = (s', None) →
  s' = <[diffKey msIndex := replicate 8 x00]> s.
Proof.
  intros H. apply ApplyConfirmation_success in H as (ds & Hlen & _ & ->).
  destruct ds; [| done]. reflexivity.
Qed.

Lemma ApplyConfirmation_empty_lists_witness :
  (ApplyConfirmation no_faults ∅ 9 [] []).1 = <[diffKey 9 := replicate 8 x00]> ∅.
Proof.
  apply (ApplyConfirmation_empty_lists no_faults ∅ _ 9).
  apply pair_snd_None. vm_compute. reflexivity.
Defined.

Lemma PutUint32_inj (a b : Z) :
  0 ≤ a < 2 ^ 32 → 0 ≤ b < 2 ^ 32 → binary.PutUint32 a = binary.PutUint32 b → a = b.
Proof.
  intros Ha Hb E.
  assert (H1 := Uint32_PutUint32 a [] Ha). assert (H2 := Uint32_PutUint32 b [] Hb).
  change (binary.Uint32 (slice_of (binary.PutUint32 a)) = Ret a) in H1.
  change (binary.Uint32 (slice_of (binary.PutUint32 b)) = Ret b) in H2.
  rewrite E in H1. congruence.
Qed.

(** X18.  The diff records of other milestones are left as they were:
    a call touches the diff record of an index only if the index equals
    its own as a [uint32]. *)
Theorem other_diff_records_untouched (F : Faults) (s : KVStore) (msIndex other : Z)
    (newOutputs : list Output) (newSpents : list Spent) :
  uint32 other ≠ uint32 msIndex →
  (ApplyConfirmation F s msIndex newOutputs newSpents).1 !! diffKey other
  = s !! diffKey other.
Proof.
  intros Hne. apply ApplyConfirmation_untouched.
  unfold touched_keys. rewrite !not_elem_of_app.
  repeat split; try (intros [x [E _]]%list_elem_of_fmap; revert E; key_ne).
  intros E%list_elem_of_singleton. apply Hne.
  unfold diffKey in E. apply (inj (cons _)) in E.
  apply PutUint32_inj in E; [done | apply uint32_range | apply uint32_range].
Qed.

Lemma other_diff_records_untouched_witness :
  store6 !! diffKey 5 = store5 !! diffKey 5.
Proof.
  apply (other_diff_records_untouched no_faults store5 6 5 [] [spent1]).
  vm_compute. discriminate.
Defined.

(** ** The ledger store: reading one output *)

Lemma take_vec_app (n : nat) (v : vec byte n) (rest : list byte) :
  take_vec n (vec_to_list v ++ rest) = Some v.
Proof.
  induction v as [| x n v IH]; simpl; [done |]. by rewrite IH.
Qed.

Lemma take_vec_is_Some (n : nat) (l : list byte) :
  (n ≤ length l)%nat → is_Some (take_vec n l).
Proof.
  revert l. induction n as [| n IH]; intros l Hl; simpl; [by eexists |].
  destruct l as [| x l]; [simpl in Hl; lia |].
  destruct (IH l) as [v Hv]; [simpl in Hl; lia |]. rewrite Hv. by eexists.
Qed.

Lemma length_identityKey (tx : vec byte 32) (idx : Z) :
  length (identityKey tx idx) = 34%nat.
Proof. unfold identityKey. by rewrite length_app, length_vec_to_list. Qed.

Lemma length_Output_kvStorableValue (o : Output) :
  length (Output_kvStorableValue o) = 40%nat.
Proof. unfold Output_kvStorableValue. by rewrite length_app, length_vec_to_list. Qed.

(** Two bytes written by [PutUint16] hold the index. *)
Lemma LittleEndian_value_PutUint16 (v : Z) :
  LittleEndian_value (binary.PutUint16 (uint16 v)) = uint16 v.
Proof.
  unfold LittleEndian_value, binary.PutUint16. cbn [foldr].
  rewrite !Z_of_byte_of_Z. change 256 with (2 ^ 8).
  assert (Hr : 0 ≤ uint16 v < 2 ^ 16) by (apply Z.mod_pos_bound; lia).
  assert (Hhigh : ∀ n, 16 ≤ n → Z.testbit (uint16 v) n = false).
  { intros n Hn. rewrite <- (Z.mod_small (uint16 v) (2 ^ 16)) by done.
    apply Z.mod_pow2_bits_high. lia. }
  apply Z.bits_inj'. intros n Hn.
  destruct (Z_lt_dec n 8); [| destruct (Z_lt_dec n 16)];
    bits_norm; rewrite ?Z.testbit_0_l, ?orb_false_r, ?orb_false_l;
    try (f_equal; lia).
  by rewrite Hhigh by lia.
Qed.

(** Eight bytes written by [PutUint64] hold the amount. *)
Lemma LittleEndian_value_PutUint64 (v : Z) :
  0 ≤ v < 2 ^ 64 →
  LittleEndian_value (binary.PutUint64 (uint64 v)) = v.
Proof.
  intros Hv. unfold uint64. rewrite Z.mod_small by done.
  unfold LittleEndian_value, binary.PutUint64, binary.PutUint32. cbn [foldr app].
  rewrite !Z_of_byte_of_Z. change 256 with (2 ^ 8).
  assert (Hhigh : ∀ n, 64 ≤ n → Z.testbit v n = false).
  { intros n Hn. rewrite <- (Z.mod_small v (2 ^ 64)) by done.
    apply Z.mod_pow2_bits_high. lia. }
  apply Z.bits_inj'. intros n Hn.
  destruct (Z_lt_dec n 8); [| destruct (Z_lt_dec n 16); [| destruct (Z_lt_dec n 24);
    [| destruct (Z_lt_dec n 32); [| destruct (Z_lt_dec n 40);
    [| destruct (Z_lt_dec n 48); [| destruct (Z_lt_dec n 56);
    [| destruct (Z_lt_dec n 64)]]]]]]];
    bits_norm; rewrite ?Z.testbit_0_l, ?orb_false_r, ?orb_false_l;
    try (f_equal; lia).
  by rewrite Hhigh by lia.
Qed.

(** The decoder on a key and a value of the right lengths. *)
Lemma Output_kvStorableLoad_lengths (tx : vec byte 32) (idx : Z) (value : list byte) :
  length value = 40%nat →
  ∃ addr, take_vec 32 value = Some addr
    ∧ Output_kvStorableLoad (identityKey tx idx) value
      = Ret (mkOutput tx (uint16 idx) addr (LittleEndian_value (drop 32 value))).
Proof.
  intros Hv. destruct (take_vec_is_Some 32 value) as [addr Ha]; [lia |].
  exists addr. split; [done |]. unfold Output_kvStorableLoad.
  rewrite decide_True by apply length_identityKey. rewrite decide_True by done.
  unfold identityKey. rewrite take_vec_app, Ha.
  rewrite drop_app_length' by (by rewrite length_vec_to_list).
  by rewrite LittleEndian_value_PutUint16.
Qed.

(** An encoded output decodes to the output. *)
Lemma Output_kvStorableLoad_encoding (o : Output) :
  output_in_range o →
  Output_kvStorableLoad (Output_kvStorableKey o) (Output_kvStorableValue o) = Ret o.
Proof.
  intros [Hi Ha].
  destruct (Output_kvStorableLoad_lengths (TransactionID o) (OutputIndex o)
              (Output_kvStorableValue o) (length_Output_kvStorableValue o))
    as (addr & Haddr & Hload).
  change (identityKey (TransactionID o) (OutputIndex o))
    with (Output_kvStorableKey o) in Hload.
  rewrite Hload. unfold Output_kvStorableValue in *.
  rewrite take_vec_app in Haddr. injection Haddr as <-.
  rewrite drop_app_length' by (by rewrite length_vec_to_list).
  rewrite LittleEndian_value_PutUint64 by done.
  unfold uint16. rewrite Z.mod_small by done. by destruct o.
Qed.

Lemma Get_lookup (F : Faults) (s : KVStore) (k : list byte) :
  Get F s k
  = match get_err F k with
    | Some err => ([], Some err)
    | None =>
        match s !! k with
        | Some value => (value, None)
        | None => ([], Some ErrKeyNotFound)
        end
    end.
Proof. reflexivity. Qed.

Lemma ReadOutput_unfold (F : Faults) (s : KVStore) (tx : vec byte 32) (idx : Z) :
  ReadOutputForTransactionWithoutLocking F s tx idx
  = match Get F s (outputKey tx idx) with
    | (_, Some err) => Fail err
    | (value, None) => Output_kvStorableLoad (identityKey tx idx) value
    end.
Proof. reflexivity. Qed.

Lemma Output_kvStorableLoad_cases (tx : vec byte 32) (idx : Z) (value : list byte) :
  (∃ addr amount,
     Output_kvStorableLoad (identityKey tx idx) value
     = Ret (mkOutput tx (uint16 idx) addr amount))
  ∨ (∃ err, Output_kvStorableLoad (identityKey tx idx) value = Fail err).
Proof.
  destruct (decide (length value = 40%nat)) as [Hv | Hv].
  - left. destruct (Output_kvStorableLoad_lengths tx idx value Hv) as (addr & _ & H).
    by eexists _, _.
  - right. unfold Output_kvStorableLoad.
    rewrite decide_True by apply length_identityKey.
    rewrite decide_False by done. by eexists.
Qed.

(** X19.  Reading an output hands the store's error on: the error of a
    failed lookup as it is, and the not-found error for a missing record.
    An output it returns has the transactionID and the index asked for,
    and its Output record is in the store. *)
Theorem ReadOutput_results (F : Faults) (s : KVStore) (tx : vec byte 32) (idx : Z) :
  (∀ err, get_err F (outputKey tx idx) = Some err →
          ReadOutputForTransactionWithoutLocking F s tx idx = Fail err)
  ∧ (get_err F (outputKey tx idx) = None → s !! outputKey tx idx = None →
     ReadOutputForTransactionWithoutLocking F s tx idx = Fail ErrKeyNotFound)
  ∧ (∀ o, ReadOutputForTransactionWithoutLocking F s tx idx = Ret o →
          TransactionID o = tx ∧ OutputIndex o = uint16 idx ∧ hasOutput s tx idx).
Proof.
  rewrite ReadOutput_unfold, Get_lookup. unfold hasOutput.
  split; [| split].
  - by intros err ->.
  - intros -> Hs.
    match goal with
    | |- context [match ?x with Some _ => _ | None => _ end] =>
        replace x with (@None (list byte)) by done
    end.
    reflexivity.
  - intros o. destruct (get_err F _); [done |].
    match goal with
    | |- context [match ?x with Some _ => _ | None => _ end] =>
        change x with (s !! outputKey tx idx)
    end.
    destruct (s !! outputKey tx idx) as [value |]; cbn beta iota; [| done].
    intros H. destruct (Output_kvStorableLoad_cases tx idx value)
      as [(addr & amount & E) | [err E]]; rewrite E in H; [| done].
    injection H as <-. by repeat split.
Qed.

Lemma ReadOutput_results_witness :
  ReadOutputForTransactionWithoutLocking get_fault store5 tx1 0 = Fail (ErrStoreIO 5)
  ∧ ReadOutputForTransactionWithoutLocking no_faults store5 tx3 0 = Fail ErrKeyNotFound.
Proof.
  split.
  - apply (proj1 (ReadOutput_results get_fault store5 tx1 0)). reflexivity.
  - apply (proj1 (proj2 (ReadOutput_results no_faults store5 tx3 0))).
    + reflexivity.
    + vm_compute. reflexivity.
Defined.

(** X20.  An output created by a successful call is read back as it was
    given, when its index and amount fit their Go types, no other new
    output of the call has its identity, and the lookup does not fail. *)
Theorem read_back_new_output (F F' : Faults) (s s' : KVStore) (msIndex : Z)
    (newOutputs : list Output) (newSpents : list Spent) (o : Output) :
  o ∈ newOutputs →
  (∀ o', o' ∈ newOutputs → Output_kvStorableKey o' = Output_kvStorableKey o → o' = o) →
  output_in_range o →
  ApplyConfirmation F s msIndex newOutputs newSpents = (s', None) →
  get_err F' (outputKey (TransactionID o) (OutputIndex o)) = None →
  ReadOutputForTransactionWithoutLocking F' s' (TransactionID o) (OutputIndex o) = Ret o.
Proof.
  intros Ho Huniq Hr H Hget.
  apply ApplyConfirmation_success in H as (ds & _ & _ & ->).
  rewrite ReadOutput_unfold, Get_lookup, Hget.
  set (k := outputKey (TransactionID o) (OutputIndex o)).
  assert (Hk : foldl apply_mutation s (full_batch ds msIndex newOutputs newSpents) !! k
               = Some (Output_kvStorableValue o)).
  { rewrite foldl_full_batch. rewrite lookup_insert_ne by key_ne.
    apply (foldl_blocks_preserve (λ s0, s0 !! k = Some (Output_kvStorableValue o))).
    { apply Forall_spent_blocks. intros d sp _ s0 <-.
      apply lookup_spent_ops; key_ne. }
    apply (foldl_blocks_establish
             (λ s0, s0 !! k = Some (Output_kvStorableValue o)) _ (output_ops o)).
    - apply list_elem_of_fmap. by exists o.
    - intros s0. unfold output_ops. cbn [foldl apply_mutation].
      rewrite Output_key_eq, Output_UTXOKey_eq.
      rewrite lookup_insert_ne by key_ne. apply lookup_insert_eq.
    - apply Forall_forall. intros blk [o' [-> Ho']]%list_elem_of_fmap s0 Hs0.
      unfold output_ops. cbn [foldl apply_mutation].
      rewrite Output_key_eq, Output_UTXOKey_eq.
      rewrite lookup_insert_ne by key_ne.
      rewrite lookup_insert. case_decide as E; [| done].
      unfold k, outputKey in E. apply (inj (cons _)) in E.
      by rewrite (Huniq o' Ho' E). }
  match goal with
  | |- context [match ?x with Some _ => _ | None => _ end] =>
      replace x with (Some (Output_kvStorableValue o)) by (symmetry; exact Hk)
  end.
  by apply Output_kvStorableLoad_encoding.
Qed.

Lemma read_back_new_output_witness :
  ReadOutputForTransactionWithoutLocking no_faults store_both tx3 0 = Ret out3.
Proof.
  apply (read_back_new_output no_faults no_faults ∅ store_both 5 [out1; out3] [] out3).
  - apply list_elem_of_In. simpl. tauto.
  - intros o' Ho' E. apply list_elem_of_In in Ho'. simpl in Ho'.
    destruct Ho' as [<- | [<- | []]]; [| done]. vm_compute in E. discriminate.
  - split; simpl; lia.
  - apply pair_snd_None. vm_compute. reflexivity.
  - reflexivity.
Defined.

(** ** The ledger store: listing on the stores that calls build *)

Lemma ledger_shape_empty : ledger_shape ∅.
Proof.
  split.
  - intros key [v Hv]. by rewrite lookup_empty in Hv.
  - intros tx idx value Hv. by rewrite lookup_empty in Hv.
Qed.

Lemma ledger_shape_insert (s : KVStore) (k : Key) (v : Value) :
  (head k = Some UTXOStoreKeyPrefixUnspent → ∃ addr tx idx, k = unspentKey addr tx idx) →
  (∀ tx idx, k = outputKey tx idx → length v = 40%nat) →
  ledger_shape s → ledger_shape (<[k := v]> s).
Proof.
  intros HkU HkO [HU HO]. split.
  - intros key Hkey Hhead. destruct (decide (k = key)) as [<- | Hne]; [by apply HkU |].
    rewrite lookup_insert_ne in Hkey by done. by apply HU.
  - intros tx idx value. destruct (decide (k = outputKey tx idx)) as [E | Hne].
    + rewrite E, lookup_insert_eq. intros [= <-]. by apply (HkO tx idx).
    + rewrite lookup_insert_ne by done. apply HO.
Qed.

Lemma ledger_shape_delete (s : KVStore) (k : Key) :
  ledger_shape s → ledger_shape (delete k s).
Proof.
  intros [HU HO]. split.
  - intros key [v Hv] Hhead. apply lookup_delete_Some in Hv as [_ Hv].
    apply HU; [by eexists | done].
  - intros tx idx value Hv. apply lookup_delete_Some in Hv as [_ Hv]. by apply (HO tx idx).
Qed.

Lemma ledger_shape_output (s : KVStore) (o : Output) :
  ledger_shape s → ledger_shape (foldl apply_mutation s (output_ops o)).
Proof.
  intros Hs. unfold output_ops. cbn [foldl apply_mutation].
  rewrite Output_key_eq, Output_UTXOKey_eq.
  apply ledger_shape_insert; [by eexists _, _, _ | intros tx idx E; revert E; key_ne |].
  apply ledger_shape_insert; [intros E; revert E; key_ne | | done].
  intros tx idx _. apply length_Output_kvStorableValue.
Qed.

Lemma ledger_shape_spent (s : KVStore) (d : bool) (sp : Spent) :
  ledger_shape s → ledger_shape (foldl apply_mutation s (spent_ops d sp)).
Proof.
  intros Hs. unfold spent_ops. rewrite foldl_app. cbn [foldl apply_mutation].
  rewrite Spent_spentKey_eq.
  apply ledger_shape_insert;
    [intros E; revert E; key_ne | intros tx idx E; revert E; key_ne |].
  destruct d; cbn [foldl apply_mutation]; [by apply ledger_shape_delete | done].
Qed.

Lemma ledger_shape_ApplyConfirmation (F : Faults) (s : KVStore) (msIndex : Z)
    (newOutputs : list Output) (newSpents : list Spent) :
  ledger_shape s → ledger_shape (ApplyConfirmation F s msIndex newOutputs newSpents).1.
Proof.
  intros Hs.
  destruct (ApplyConfirmation_cases F s msIndex newOutputs newSpents)
    as [[err ->] | (ds & _ & _ & ->)]; [done |]. simpl.
  rewrite foldl_full_batch.
  apply ledger_shape_insert;
    [intros E; revert E; key_ne | intros tx idx E; revert E; key_ne |].
  apply foldl_blocks_preserve.
  { apply Forall_spent_blocks. intros d sp _ s0. apply ledger_shape_spent. }
  apply foldl_blocks_preserve; [| done].
  apply Forall_fmap, Forall_forall. intros o _ s0. apply ledger_shape_output.
Qed.

Lemma reachable_ledger_shape (s : KVStore) : reachable s → ledger_shape s.
Proof.
  induction 1 as [| F s msIndex newOutputs newSpents _ IH].
  - apply ledger_shape_empty.
  - by apply ledger_shape_ApplyConfirmation.
Qed.

Lemma drop_unspentKey (addr tx : vec byte 32) (idx : Z) :
  drop 33 (unspentKey addr tx idx) = identityKey tx idx.
Proof.
  unfold unspentKey. cbn [app drop].
  by rewrite drop_app_length' by (by rewrite length_vec_to_list).
Qed.

Lemma identityKey_uint16 (tx : vec byte 32) (idx : Z) :
  identityKey tx (uint16 idx) = identityKey tx idx.
Proof.
  unfold identityKey, uint16. by rewrite Z.mod_mod by lia.
Qed.

(** On a store built by calls, with a store whose lookups do not fail,
    every Unspent entry joins to an output with the entry's identity. *)
Lemma reachable_join (F : Faults) (s : KVStore) (address : vec byte 32) (key : Key) :
  reachable s → (∀ k, get_err F k = None) →
  key ∈ keys_with_prefix s ([UTXOStoreKeyPrefixUnspent] ++ vec_to_list address) →
  ∃ o, join F s key = Some o
       ∧ key = unspentKey address (TransactionID o) (OutputIndex o).
Proof.
  intros Hr Hget Hkey.
  destruct (reachable_ledger_shape s Hr) as [HshU HshO].
  destruct (reachable_ledger_inv s Hr) as [HinvU _].
  apply keys_with_prefix_sorted in Hkey as [Hin [rest Hp]].
  destruct (HshU key Hin) as (a & t & i & ->); [by rewrite Hp |].
  assert (a = address) as ->.
  { unfold unspentKey in Hp. apply (inj (cons _)) in Hp.
    apply app_inj_1 in Hp as [Hp _]; [| by rewrite !length_vec_to_list].
    by apply vec_to_list_inj2. }
  destruct (HinvU address t i Hin) as [v Hv].
  assert (Hlen := HshO t i v Hv).
  destruct (Output_kvStorableLoad_lengths t i v Hlen) as (addr & _ & Hload).
  exists (mkOutput t (uint16 i) addr (LittleEndian_value (drop 32 v))). split.
  - unfold join. rewrite drop_unspentKey, Get_lookup, Hget.
    match goal with
    | |- context [match ?x with Some _ => _ | None => _ end] =>
        replace x with (Some v) by (symmetry; exact Hv)
    end.
    by rewrite Hload.
  - simpl. unfold unspentKey. by rewrite identityKey_uint16.
Qed.

Lemma joined_run_all (F : Faults) (s : KVStore) (R : Key → Output → Prop)
    (keys : list Key) :
  Forall (λ key, ∃ o, join F s key = Some o ∧ R key o) keys →
  Forall2 R keys (joined_run F s keys).
Proof.
  induction 1 as [| key keys (o & Hj & HR) _ IH]; simpl; [constructor |].
  rewrite Hj. by constructor.
Qed.

(** X21.  On a store built from the empty store by calls, and when
    neither the lookups nor the iteration fail, the listing returns one
    output for every Unspent entry of the address, in key order, each
    with the transactionID and the index of its entry. *)
Theorem UnspentOutputsForAddress_on_reachable (F : Faults) (s : KVStore)
    (address : vec byte 32) :
  reachable s →
  (∀ k, get_err F k = None) →
  iterate_err F ([UTXOStoreKeyPrefixUnspent] ++ vec_to_list address) = None →
  ∃ outputs,
    UnspentOutputsForAddress F s address = (outputs, None)
    ∧ Forall2 (λ key o, key = unspentKey address (TransactionID o) (OutputIndex o))
        (keys_with_prefix s ([UTXOStoreKeyPrefixUnspent] ++ vec_to_list address))
        outputs.
Proof.
  intros Hr Hget Hit. eexists. split.
  - unfold UnspentOutputsForAddress, IterateKeys. rewrite Hit.
    by rewrite iterate_joined_run.
  - simpl. apply joined_run_all, Forall_forall. intros key Hkey.
    by apply reachable_join.
Qed.

Lemma UnspentOutputsForAddress_on_reachable_witness :
  ∃ outputs,
    UnspentOutputsForAddress no_faults store7 addrA = (outputs, None)
    ∧ Forall2 (λ key o, key = unspentKey addrA (TransactionID o) (OutputIndex o))
        (keys_with_prefix store7 ([UTXOStoreKeyPrefixUnspent] ++ vec_to_list addrA))
        outputs.
Proof.
  apply (UnspentOutputsForAddress_on_reachable no_faults store7 addrA).
  - unfold store7, store6, store5. repeat apply reachable_apply. apply reachable_empty.
  - intros k. reflexivity.
  - reflexivity.
Defined.

Lemma join_Some (F : Faults) (s : KVStore) (key : Key) (o : Output) :
  join F s key = Some o →
  ∃ value, s !! ([UTXOStoreKeyPrefixOutput] ++ drop 33 key) = Some value
           ∧ Output_kvStorableLoad (drop 33 key) value = Ret o.
Proof.
  unfold join. rewrite Get_lookup. destruct (get_err F _); [done |].
  destruct (s !! ([UTXOStoreKeyPrefixOutput] ++ drop 33 key)) as [value |] eqn:Hv;
    cbn beta iota; [| done].
  destruct (Output_kvStorableLoad (drop 33 key) value) as [o' | |] eqn:Hl; [| done | done].
  intros [= <-]. by exists value.
Qed.

(** Whatever the store reports, the loop collects outputs that entries
    join to, at most one for each entry. *)
Lemma iterate_collects (F : Faults) (s : KVStore) (break : option (nat * error))
    (keys : list Key) (acc res : list Output) (e : option error) :
  iterate break (unspentConsumer F s) keys acc = (res, e) →
  ∃ os, res = acc ++ os
        ∧ (length os ≤ length keys)%nat
        ∧ Forall (λ o, ∃ key, key ∈ keys ∧ join F s key = Some o) os.
Proof.
  revert break acc. induction keys as [| key keys IH]; intros break acc H.
  - exists []. rewrite app_nil_r.
    destruct break as [[[| n] err] |]; simpl in H; injection H as <- _; by repeat split.
  - assert (Hstop : (res, e) = (acc, e) → ∃ os, res = acc ++ os
              ∧ (length os ≤ length (key :: keys))%nat
              ∧ Forall (λ o, ∃ key0, key0 ∈ key :: keys ∧ join F s key0 = Some o) os).
    { intros [= ->]. exists []. rewrite app_nil_r. repeat split; [simpl; lia | constructor]. }
    assert (Hstep : ∀ break', (let '(acc', continue) := unspentConsumer F s key acc in
                       if continue then iterate break' (unspentConsumer F s) keys acc'
                       else (acc', None)) = (res, e) →
              ∃ os, res = acc ++ os
              ∧ (length os ≤ length (key :: keys))%nat
              ∧ Forall (λ o, ∃ key0, key0 ∈ key :: keys ∧ join F s key0 = Some o) os).
    { intros break' H'. rewrite unspentConsumer_join in H'.
      destruct (join F s key) as [o |] eqn:Hj.
      - apply IH in H' as (os & -> & Hlen & Hall).
        exists (o :: os). rewrite <- app_assoc. split; [done |].
        split; [simpl; lia |]. constructor.
        + exists key. split; [by left | done].
        + eapply Forall_impl; [exact Hall |].
          intros o' (k' & Hk' & Hj'). exists k'. split; [by right | done].
      - injection H' as <- <-. exists []. rewrite app_nil_r.
        repeat split; [simpl; lia | constructor]. }
    destruct break as [[[| n] err] |]; simpl in H.
    + injection H as <- <-. exists []. rewrite app_nil_r.
      repeat split; [simpl; lia | constructor].
    + by apply (Hstep (Some (n, err))).
    + by apply (Hstep None).
Qed.

(** X22.  Whatever the store holds and reports, every output the listing
    returns was decoded from an Output record that an Unspent entry of
    the address points to, and the listing returns no more outputs than
    the address has Unspent entries. *)
Theorem UnspentOutputsForAddress_sound (F : Faults) (s : KVStore)
    (address : vec byte 32) :
  (length (UnspentOutputsForAddress F s address).1
   ≤ length (keys_with_prefix s ([UTXOStoreKeyPrefixUnspent] ++ vec_to_list address)))%nat
  ∧ ∀ o, o ∈ (UnspentOutputsForAddress F s address).1 →
      ∃ key value,
        is_Some (s !! key)
        ∧ ([UTXOStoreKeyPrefixUnspent] ++ vec_to_list address) `prefix_of` key
        ∧ s !! ([UTXOStoreKeyPrefixOutput] ++ drop 33 key) = Some value
        ∧ Output_kvStorableLoad (drop 33 key) value = Ret o.
Proof.
  unfold UnspentOutputsForAddress, IterateKeys.
  destruct (iterate _ _ _ _) as [res e] eqn:E.
  apply iterate_collects in E as (os & -> & Hlen & Hall). simpl. split; [done |].
  intros o Ho. rewrite Forall_forall in Hall.
  destruct (Hall o Ho) as (key & Hkey & Hj).
  apply keys_with_prefix_sorted in Hkey as [Hin Hp].
  apply join_Some in Hj as (value & Hv & Hl). by exists key, value.
Qed.

Lemma UnspentOutputsForAddress_sound_witness :
  ∃ key value,
    is_Some (store5 !! key)
    ∧ ([UTXOStoreKeyPrefixUnspent] ++ vec_to_list addrA) `prefix_of` key
    ∧ store5 !! ([UTXOStoreKeyPrefixOutput] ++ drop 33 key) = Some value
    ∧ Output_kvStorableLoad (drop 33 key) value = Ret out1.
Proof.
  apply (proj2 (UnspentOutputsForAddress_sound no_faults store5 addrA) out1).
  vm_compute. left.
Defined.

(** ** The ledger store: replaying a call, reading a diff back *)

Lemma apply_mutation_lookup_cases (op : mutation) (k : Key) :
  (∀ s, apply_mutation s op !! k = s !! k)
  ∨ (∀ s1 s2, apply_mutation s1 op !! k = apply_mutation s2 op !! k).
Proof.
  destruct op as [k' v | k']; simpl; destruct (decide (k' = k)) as [-> | Hne].
  - right. intros s1 s2. by rewrite !lookup_insert_eq.
  - left. intros s. by rewrite lookup_insert_ne.
  - right. intros s1 s2. by rewrite !lookup_delete_eq.
  - left. intros s. by rewrite lookup_delete_ne.
Qed.

(** A batch either leaves a key alone or decides what it holds. *)
Lemma batch_lookup_cases (b : BatchedMutations) (k : Key) :
  (∀ s, foldl apply_mutation s b !! k = s !! k)
  ∨ (∀ s1 s2, foldl apply_mutation s1 b !! k = foldl apply_mutation s2 b !! k).
Proof.
  induction b as [| op b IH]; simpl; [by left |].
  destruct IH as [IH | IH].
  - destruct (apply_mutation_lookup_cases op k) as [Hop | Hop].
    + left. intros s. by rewrite IH, Hop.
    + right. intros s1 s2. by rewrite !IH, (Hop s1 s2).
  - right. intros s1 s2. apply IH.
Qed.

Lemma batch_idempotent (b : BatchedMutations) (s : KVStore) :
  foldl apply_mutation (foldl apply_mutation s b) b = foldl apply_mutation s b.
Proof.
  apply map_eq. intros k.
  destruct (batch_lookup_cases b k) as [H | H]; [by rewrite H | apply H].
Qed.

(** X23.  Replaying a call is harmless: when a call succeeded and the
    same call succeeds again on the store it left, both with their
    Deletes staged, the store after the second call is the store after
    the first. *)
Theorem ApplyConfirmation_replay (F F' : Faults) (s s1 s2 : KVStore) (msIndex : Z)
    (newOutputs : list Output) (newSpents : list Spent) :
  deletes_staged F → deletes_staged F' →
  ApplyConfirmation F s msIndex newOutputs newSpents = (s1, None) →
  ApplyConfirmation F' s1 msIndex newOutputs newSpents = (s2, None) →
  s2 = s1.
Proof.
  intros Hd Hd' H1 H2.
  apply ApplyConfirmation_success in H1 as (ds1 & _ & Hds1 & ->).
  apply ApplyConfirmation_success in H2 as (ds2 & _ & Hds2 & ->).
  rewrite (Hds1 Hd), (Hds2 Hd'). apply batch_idempotent.
Qed.

Lemma ApplyConfirmation_replay_witness :
  (ApplyConfirmation no_faults store5 5 [out1] []).1 = store5.
Proof.
  apply (ApplyConfirmation_replay no_faults no_faults ∅ store5 _ 5 [out1] []).
  - intros b key. reflexivity.
  - intros b key. reflexivity.
  - apply pair_snd_None. vm_compute. reflexivity.
  - apply pair_snd_None. vm_compute. reflexivity.
Defined.

Lemma concat_fixed_inj (n : nat) (l1 l2 : list (list byte)) (r1 r2 : list byte) :
  Forall (λ c, length c = n) l1 → Forall (λ c, length c = n) l2 →
  length l1 = length l2 →
  concat l1 ++ r1 = concat l2 ++ r2 → l1 = l2 ∧ r1 = r2.
Proof.
  intros H1. revert l2. induction H1 as [| c1 l1 Hc1 _ IH]; intros l2 H2 Hlen E.
  - destruct l2; [done | discriminate].
  - destruct H2 as [| c2 l2 Hc2 H2]; [discriminate |].
    simpl in E. rewrite <- !app_assoc in E.
    apply app_inj_1 in E as [-> E]; [| congruence].
    destruct (IH l2 H2) as [-> ->]; [simpl in Hlen; lia | done | done].
Qed.

Lemma diff_value_inj (outs1 outs2 : list Output) (sps1 sps2 : list Spent) :
  Z.of_nat (length outs1) < 2 ^ 32 → Z.of_nat (length outs2) < 2 ^ 32 →
  Z.of_nat (length sps1) < 2 ^ 32 → Z.of_nat (length sps2) < 2 ^ 32 →
  diff_value outs1 sps1 = diff_value outs2 sps2 →
  Output_kvStorableKey <$> outs1 = Output_kvStorableKey <$> outs2
  ∧ Spent_kvStorableKey <$> sps1 = Spent_kvStorableKey <$> sps2.
Proof.
  intros Ho1 Ho2 Hs1 Hs2 E. unfold diff_value in E.
  apply app_inj_1 in E as [En E]; [| done].
  apply PutUint32_inj in En; [| apply uint32_range | apply uint32_range].
  rewrite !uint32_small in En by lia. apply Nat2Z.inj in En.
  apply (concat_fixed_inj 34) in E as [Ekeys E].
  - apply app_inj_1 in E as [Em E]; [| done].
    apply PutUint32_inj in Em; [| apply uint32_range | apply uint32_range].
    rewrite !uint32_small in Em by lia. apply Nat2Z.inj in Em.
    rewrite <- (app_nil_r (concat (_ <$> sps1))) in E.
    rewrite <- (app_nil_r (concat (_ <$> sps2))) in E.
    apply (concat_fixed_inj 66) in E as [Esp _]; [done | | |].
    + apply Forall_fmap, Forall_forall. intros sp _. simpl.
      by rewrite length_app, length_vec_to_list, length_identityKey.
    + apply Forall_fmap, Forall_forall. intros sp _. simpl.
      by rewrite length_app, length_vec_to_list, length_identityKey.
    + by rewrite !length_fmap.
  - apply Forall_fmap, Forall_forall. intros o _. apply length_identityKey.
  - apply Forall_fmap, Forall_forall. intros o _. apply length_identityKey.
  - by rewrite !length_fmap.
Qed.

(** X24.  A diff record tells which keys its call wrote: when two
    successful calls, each with fewer than 2^32 outputs and spents, leave
    the same diff value, their new outputs have the same identity keys in
    the same order, and their spents the same keys in the same order. *)
Theorem diff_record_determines_keys (F1 F2 : Faults) (s1 s2 s1' s2' : KVStore)
    (i1 i2 : Z) (outs1 outs2 : list Output) (sps1 sps2 : list Spent) :
  Z.of_nat (length outs1) < 2 ^ 32 → Z.of_nat (length outs2) < 2 ^ 32 →
  Z.of_nat (length sps1) < 2 ^ 32 → Z.of_nat (length sps2) < 2 ^ 32 →
  ApplyConfirmation F1 s1 i1 outs1 sps1 = (s1', None) →
  ApplyConfirmation F2 s2 i2 outs2 sps2 = (s2', None) →
  s1' !! diffKey i1 = s2' !! diffKey i2 →
  Output_kvStorableKey <$> outs1 = Output_kvStorableKey <$> outs2
  ∧ Spent_kvStorableKey <$> sps1 = Spent_kvStorableKey <$> sps2.
Proof.
  intros Ho1 Ho2 Hs1 Hs2 H1 H2 E.
  apply ApplyConfirmation_success in H1 as (ds1 & _ & _ & ->).
  apply ApplyConfirmation_success in H2 as (ds2 & _ & _ & ->).
  rewrite !foldl_full_batch, !lookup_insert_eq in E. apply (inj Some) in E.
  by apply diff_value_inj.
Qed.

Lemma diff_record_determines_keys_witness :
  Output_kvStorableKey <$> [out1] = Output_kvStorableKey <$> [out1]
  ∧ Spent_kvStorableKey <$> [] = Spent_kvStorableKey <$> [].
Proof.
  apply (diff_record_determines_keys no_faults no_faults ∅ store6 store5
           (ApplyConfirmation no_faults store6 5 [out1] []).1 5 5 [out1] [out1] [] []).
  - simpl. lia.
  - simpl. lia.
  - simpl. lia.
  - simpl. lia.
  - apply pair_snd_None. vm_compute. reflexivity.
  - apply pair_snd_None. vm_compute. reflexivity.
  - vm_compute. reflexivity.
Defined.
